(** * RFM / CLTV analysis notebook: a shallow embedding and its properties

    The notebook [RFM-Analysis.ipynb] is a straight-line sequence of cells
    that rebind one global data frame [df_copy].  Each code cell is embedded
    here as a function from the frame it reads to the frame it leaves
    behind; the two other globals, the dictionary [country] (cell 9) and
    [today_date] (cell 17), are passed explicitly.

    Modelling conventions.
    - A data frame is the list of its rows, in index order.
    - [float64] values are exact rationals ([Q]); a result that is not a
      finite number (NaN, or an infinity produced by a division by zero) is
      [None].  Rounding error is therefore outside this development, and
      equalities between computed numbers are stated with [==] on [Q].
    - [datetime64[ns]] values are integers: nanoseconds since the epoch.
    - A cell of the [Invoice] column holds either a number (536365) or a
      text ("C536379"); the column has dtype [object] when some cell read
      from the sheet is a text, and a numeric dtype otherwise.
    - A cell [cell_n] is the frame the cell leaves when it does not raise;
      for the three cells that can raise on a well-formed sheet (12, 20 and
      22), [run_cell_n] adds the exception. *)

From Stdlib Require Import List ZArith QArith Qround Bool String Ascii.
From Stdlib Require Import Lia Lra Psatz Permutation Sorted.
Import ListNotations.

Set Implicit Arguments.

(** ** Sorting, as used by [quantile] and by [groupby] *)

Section InsertionSort.
Context {A : Type} (leb : A -> A -> bool).

Fixpoint insert (x : A) (l : list A) : list A :=
  match l with
  | [] => [x]
  | y :: l' => if leb x y then x :: l else y :: insert x l'
  end.

Fixpoint isort (l : list A) : list A :=
  match l with
  | [] => []
  | x :: l' => insert x (isort l')
  end.
End InsertionSort.

(** ** Numbers *)

Definition Qltb (a b : Q) : bool := negb (Qle_bool b a).

(** A [float64] that may be non-finite. *)
Definition num := option Q.

(** [a / b] on floats, the divisor being a finite number: dividing by zero
    gives NaN or an infinity and raises nothing (numpy semantics). *)
Definition fdiv (a : num) (b : Q) : num :=
  match a with
  | Some x => if Qeq_bool b 0 then None else Some (x / b)%Q
  | None => None
  end.

Definition fmul (a b : num) : num :=
  match a, b with
  | Some x, Some y => Some (x * y)%Q
  | _, _ => None
  end.


Definition sumQ (l : list Q) : Q := fold_left Qplus l 0%Q.
Definition sumZ (l : list Z) : Z := fold_left Z.add l 0%Z.

(** ** [Series.quantile(q)] with the default linear interpolation

    The sorted values are indexed from 0; the virtual index is
    [(n-1) * q]; the result interpolates between its two neighbours.
    On an empty series the result is NaN. *)

Definition interpolate (s : list Q) (x0 : Q) (q : Q) : Q :=
  let n := List.length s in
  let h := (inject_Z (Z.of_nat (n - 1)) * q)%Q in
  let lo := Z.to_nat (Qfloor h) in
  let g := (h - inject_Z (Qfloor h))%Q in
  let a := nth lo s x0 in
  let b := nth (Nat.min (lo + 1) (n - 1)) s x0 in
  (a + g * (b - a))%Q.

Definition quantile (col : list Q) (q : Q) : num :=
  match isort Qle_bool col with
  | [] => None
  | x0 :: rest => Some (interpolate (x0 :: rest) x0 q)
  end.

(** ** Transactions *)

(** A cell of the [Invoice] column. *)
Inductive invoice : Type :=
| InvNum (n : Z)
| InvStr (s : string).

Definition invoice_eq_dec (a b : invoice) : {a = b} + {a <> b}.
Proof.
  decide equality; [apply Z.eq_dec | apply string_dec].
Defined.

(** A row as read from the sheet: any cell may be missing. *)
Record raw_row : Type := {
  rInvoice : option invoice;
  rStockCode : option string;
  rDescription : option string;
  rQuantity : option Z;
  rInvoiceDate : option Z;
  rPrice : option Q;
  rCustomerID : option Z;
  rCountry : option string
}.

(** A row without missing cells.  [Quantity] is read as an [int64] and is
    carried as a rational from here on, because capping may store a
    fractional threshold in it. *)
Record row : Type := {
  Invoice : invoice;
  StockCode : string;
  Description : string;
  Quantity : Q;
  InvoiceDate : Z;
  Price : Q;
  CustomerID : Z;
  Country : string
}.

(** Cell 6: [df_copy.dropna(inplace=True)] drops every row that has a
    missing value in any column. *)
Definition complete (r : raw_row) : option row :=
  match rInvoice r, rStockCode r, rDescription r, rQuantity r,
        rInvoiceDate r, rPrice r, rCustomerID r, rCountry r with
  | Some i, Some s, Some d, Some q, Some t, Some p, Some c, Some k =>
      Some {| Invoice := i; StockCode := s; Description := d;
              Quantity := inject_Z q; InvoiceDate := t; Price := p;
              CustomerID := c; Country := k |}
  | _, _, _, _, _, _, _, _ => None
  end.

Fixpoint dropna (df : list raw_row) : list row :=
  match df with
  | [] => []
  | r :: df' =>
      match complete r with
      | Some r' => r' :: dropna df'
      | None => dropna df'
      end
  end.

(** ** Cell 7: outlier thresholds and capping *)

(** The two numeric columns the functions are called on. *)
Inductive variable : Type := VPrice | VQuantity.

Definition get (v : variable) (r : row) : Q :=
  match v with
  | VPrice => Price r
  | VQuantity => Quantity r
  end.

Definition set (v : variable) (x : Q) (r : row) : row :=
  match v with
  | VPrice =>
      {| Invoice := Invoice r; StockCode := StockCode r;
         Description := Description r; Quantity := Quantity r;
         InvoiceDate := InvoiceDate r; Price := x;
         CustomerID := CustomerID r; Country := Country r |}
  | VQuantity =>
      {| Invoice := Invoice r; StockCode := StockCode r;
         Description := Description r; Quantity := x;
         InvoiceDate := InvoiceDate r; Price := Price r;
         CustomerID := CustomerID r; Country := Country r |}
  end.

Definition column (v : variable) (df : list row) : list Q := map (get v) df.

(** [outlier_thresholds(dataframe, variable)]: returns [(low_limit, up_limit)];
    both are NaN when the column is empty. *)
Definition outlier_thresholds (df : list row) (v : variable) : option (Q * Q) :=
  match quantile (column v df) (1 # 100), quantile (column v df) (99 # 100) with
  | Some quartile1, Some quartile3 =>
      let interquantile_range := (quartile3 - quartile1)%Q in
      let up_limit := (quartile3 + (3 # 2) * interquantile_range)%Q in
      let low_limit := (quartile1 - (3 # 2) * interquantile_range)%Q in
      Some (low_limit, up_limit)
  | _, _ => None
  end.

(** [dataframe.loc[dataframe[variable] < limit, variable] = limit] *)
Definition assign_below (v : variable) (limit : Q) (df : list row) : list row :=
  map (fun r => if Qltb (get v r) limit then set v limit r else r) df.

(** [dataframe.loc[dataframe[variable] > limit, variable] = limit] *)
Definition assign_above (v : variable) (limit : Q) (df : list row) : list row :=
  map (fun r => if Qltb limit (get v r) then set v limit r else r) df.

(** [replace_with_thresholds(dataframe, variable)]: two assignments in
    sequence; a comparison with NaN selects no row. *)
Definition replace_with_thresholds (df : list row) (v : variable) : list row :=
  match outlier_thresholds df v with
  | Some (low_limit, up_limit) =>
      assign_above v up_limit (assign_below v low_limit df)
  | None => df
  end.

(** Cell 8. *)
Definition cell_8 (df : list row) : list row :=
  replace_with_thresholds (replace_with_thresholds df VPrice) VQuantity.

(** ** Cells 9 and 10: folding of rare countries *)

Definition count (c : string) (col : list string) : Z :=
  Z.of_nat (count_occ string_dec col c).

(** [Series.unique()]: the distinct values in order of first appearance. *)
Definition unique (col : list string) : list string :=
  rev (nodup string_dec (rev col)).

(** [Series.value_counts()]: one entry per distinct value, most frequent
    first, values counted as often in order of first appearance. *)
Definition value_counts (col : list string) : list (string * Z) :=
  isort (fun a b => (snd b <=? snd a)%Z)
        (map (fun c => (c, count c col)) (unique col)).

(** Cell 9: [country = dict(df_copy['Country'].value_counts())]. *)
Definition cell_9 (df : list row) : list (string * Z) :=
  value_counts (map Country df).

(** [country[i]] *)
Fixpoint lookup (i : string) (d : list (string * Z)) : option Z :=
  match d with
  | [] => None
  | (k, n) :: d' => if String.eqb i k then Some n else lookup i d'
  end.

Definition set_Country (c : string) (r : row) : row :=
  {| Invoice := Invoice r; StockCode := StockCode r;
     Description := Description r; Quantity := Quantity r;
     InvoiceDate := InvoiceDate r; Price := Price r;
     CustomerID := CustomerID r; Country := c |}.

(** [df_copy['Country'] = df_copy['Country'].replace({i: new})] *)
Definition replace_Country (i new : string) (df : list row) : list row :=
  map (fun r => if String.eqb (Country r) i then set_Country new r else r) df.

(** The body of the loop of cell 10, for one key [i] of the dictionary. *)
Definition cell_10_body (country : list (string * Z)) (df : list row)
    (i : string) : list row :=
  match lookup i country with
  | Some n => if (n <? 1000)%Z then replace_Country i "others" df else df
  | None => df
  end.

(** Cell 10: [for i in country: if country[i] < 1000: ...].  The loop reads
    the dictionary built by cell 9 and rebinds the frame's column. *)
Definition cell_10 (country : list (string * Z)) (df : list row) : list row :=
  fold_left (cell_10_body country) (map fst country) df.

(** ** Cells 12 to 14: cancellations, prices, line totals *)

(** ['C' in s] *)
Fixpoint contains_C (s : string) : bool :=
  match s with
  | EmptyString => false
  | String a s' => Ascii.eqb a "C"%char || contains_C s'
  end.

(** [Series.str.contains('C', na=False)]: a cell that is not a text gives
    NaN, which [na=False] turns into [False]. *)
Definition str_contains_C (i : invoice) : bool :=
  match i with
  | InvNum _ => false
  | InvStr s => contains_C s
  end.

(** Cell 12, when the [.str] accessor accepts the column (see
    [run_cell_12]): the rows whose invoice holds no 'C'. *)
Definition cell_12 (df : list row) : list row :=
  filter (fun r => negb (str_contains_C (Invoice r))) df.

Definition cell_13 (df : list row) : list row :=
  filter (fun r => Qltb 0 (Price r)) df.

(** A transaction with the column added by cell 14. *)
Record trow : Type := {
  txn : row;
  TotalPrice : Q
}.

Definition cell_14 (df : list row) : list trow :=
  map (fun r => {| txn := r; TotalPrice := (Price r * Quantity r)%Q |}) df.

(** ** Cells 17 to 20: one row per (Customer ID, Country) *)

Definition ns_per_day : Z := 86400 * 1000000000.

(** Cell 17: [dt.datetime(2011, 12, 11)], 15319 days after the epoch. *)
Definition today_date : Z := 15319 * ns_per_day.

(** [Timedelta.days]: whole days, rounded towards minus infinity. *)
Definition days (delta : Z) : Z := (delta / ns_per_day)%Z.

Definition key : Type := (Z * string)%type.

Definition key_of (r : trow) : key := (CustomerID (txn r), Country (txn r)).

Definition key_eqb (a b : key) : bool :=
  (fst a =? fst b)%Z && String.eqb (snd a) (snd b).

Definition key_leb (a b : key) : bool :=
  if (fst a <? fst b)%Z then true
  else if (fst a =? fst b)%Z then String.leb (snd a) (snd b)
  else false.

Definition key_eq_dec (a b : key) : {a = b} + {a <> b}.
Proof.
  decide equality; [apply string_dec | apply Z.eq_dec].
Defined.

(** [groupby(['Customer ID', 'Country'])]: the distinct keys in increasing
    order, each with its rows in frame order. *)
Definition groupby (df : list trow) : list (key * list trow) :=
  map (fun k => (k, filter (fun r => key_eqb (key_of r) k) df))
      (isort key_leb (nodup key_eq_dec (map key_of df))).

(** [Series.max()] and [Series.min()] of a non-empty series. *)
Definition series_max (l : list Z) : Z :=
  match l with
  | [] => 0
  | x :: l' => fold_left Z.max l' x
  end.

Definition series_min (l : list Z) : Z :=
  match l with
  | [] => 0
  | x :: l' => fold_left Z.min l' x
  end.

(** [Series.nunique()] *)
Definition nunique {A : Type} (dec : forall a b : A, {a = b} + {a <> b})
    (l : list A) : Z :=
  Z.of_nat (List.length (nodup dec l)).

(** A row of the customer frame; [T] is the type of the two duration
    columns: whole days ([Z]) after cell 19, weeks ([Q]) after cell 20. *)
Record crow (T : Type) : Type := {
  cCustomerID : Z;
  cCountry : string;
  monetary : Q;
  CustomerLifeSpan : T;
  recency : T;
  frequency : Z
}.

(** The four aggregations of cell 18 on one group. *)
Definition agg (today : Z) (g : key * list trow) : crow Z :=
  let date := map (fun r => InvoiceDate (txn r)) (snd g) in
  {| cCustomerID := fst (fst g);
     cCountry := snd (fst g);
     monetary := sumQ (map TotalPrice (snd g));
     CustomerLifeSpan := days (series_max date - series_min date);
     recency := days (today - series_max date);
     frequency := nunique invoice_eq_dec (map (fun r => Invoice (txn r)) (snd g)) |}.

(** Cells 18 and 19: aggregate, name the columns, reset the index. *)
Definition cell_18 (today : Z) (df : list trow) : list (crow Z) :=
  map (agg today) (groupby df).

Definition weeks (r : crow Z) : crow Q :=
  {| cCustomerID := cCustomerID r;
     cCountry := cCountry r;
     monetary := monetary r;
     CustomerLifeSpan := (inject_Z (CustomerLifeSpan r) / 7)%Q;
     recency := (inject_Z (recency r) / 7)%Q;
     frequency := frequency r |}.

(** Cell 20: keep [frequency > 1], then turn days into weeks.  On a frame
    without rows the two divisions raise (see [run_cell_20]). *)
Definition cell_20 (df : list (crow Z)) : list (crow Q) :=
  map weeks (filter (fun r => (1 <? frequency r)%Z) df).

(** ** Cells 21 to 25: the metric columns *)

(** [df[name] = ...]: a column appended to the frame, row by row. *)
Definition with_column {A : Type} (f : A -> num) (df : list A) : list (A * num) :=
  map (fun r => (r, f r)) df.

Definition frame_21 : Type := list (crow Q * num).
Definition frame_22 : Type := list (crow Q * num * num).
Definition frame_23 : Type := list (crow Q * num * num * num).
Definition frame_24 : Type := list (crow Q * num * num * num * num).
Definition orow : Type := (crow Q * num * num * num * num * num)%type.

Definition cell_21 (df : list (crow Q)) : frame_21 :=
  with_column (fun r => fdiv (Some (monetary r)) (inject_Z (frequency r))) df.

Definition cell_22 (df : frame_21) : frame_22 :=
  let total := sumZ (map (fun r => frequency (fst r)) df) in
  let customers := nunique Z.eq_dec (map (fun r => cCustomerID (fst r)) df) in
  with_column (fun _ => fdiv (Some (inject_Z total)) (inject_Z customers)) df.

Definition cell_23 (df : frame_22) : frame_23 :=
  with_column (fun r => fmul (snd (fst r)) (snd r)) df.

Definition cell_24 (df : frame_23) : frame_24 :=
  let total := sumQ (map (fun r => CustomerLifeSpan (fst (fst (fst r)))) df) in
  let customers :=
    nunique Z.eq_dec (map (fun r => cCustomerID (fst (fst (fst r)))) df) in
  with_column (fun _ => fdiv (Some total) (inject_Z customers)) df.

Definition cell_25 (df : frame_24) : list orow :=
  with_column (fun r => fmul (snd (fst r)) (snd r)) df.

(** The columns of an output row, by name. *)
Definition customer (r : orow) : crow Q := fst (fst (fst (fst (fst r)))).
Definition Average_Purchase_Value (r : orow) : num := snd (fst (fst (fst (fst r)))).
Definition Average_purchase_frequency (r : orow) : num := snd (fst (fst (fst r))).
Definition Customer_Value (r : orow) : num := snd (fst (fst r)).
Definition Average_customer_lifespan (r : orow) : num := snd (fst r).
Definition CLTV (r : orow) : num := snd r.

(** ** The stages and the whole run *)

(** What a run of a group of cells results in: the frame it leaves, or the
    name of the Python exception that stops it.  The notebook has no
    [raise] and no [try]; the exceptions are those of the operations it
    applies. *)
Inductive outcome (A : Type) : Type :=
| Completed (df : A)
| Raised (exc : string).
Arguments Raised {A} exc.

(** The next cell runs on the frame left by the previous one, unless that
    one raised. *)
Definition and_then {A B : Type} (x : outcome A) (f : A -> outcome B) : outcome B :=
  match x with
  | Completed df => f df
  | Raised exc => Raised exc
  end.

(** Cells 21 to 25, when cell 22 does not raise. *)
Definition metric_columns (df : list (crow Q)) : list orow :=
  cell_25 (cell_24 (cell_23 (cell_22 (cell_21 df)))).

Definition invoice_is_text (i : invoice) : bool :=
  match i with
  | InvStr _ => true
  | InvNum _ => false
  end.

(** The dtype of the [Invoice] column as read from the sheet (cell 2):
    [object] when a cell is a text, or when the sheet has no row. *)
Definition Invoice_dtype_object (df : list raw_row) : bool :=
  match df with
  | [] => true
  | _ =>
      existsb (fun r => match rInvoice r with
                        | Some i => invoice_is_text i
                        | None => false
                        end) df
  end.

(** [df_copy['Invoice'].str]: the accessor takes a column of texts, or of
    texts and numbers, or an empty column of dtype [object]; on a column
    that holds numbers only it raises [AttributeError]. *)
Definition str_accessor_accepts (object : bool) (df : list row) : bool :=
  match df with
  | [] => object
  | _ => existsb invoice_is_text (map Invoice df)
  end.

Definition run_cell_12 (object : bool) (df : list row) : outcome (list row) :=
  if str_accessor_accepts object df
  then Completed (cell_12 df)
  else Raised "AttributeError".

(** Cell 20.  When no row reached [groupby], the frame of cell 18 still
    holds the dates in its [CustomerLifeSpan] and [recency] columns, and
    dividing them by 7 raises [TypeError]. *)
Definition run_cell_20 (df : list (crow Z)) : outcome (list (crow Q)) :=
  match df with
  | [] => Raised "TypeError"
  | _ => Completed (cell_20 df)
  end.

(** Cell 22.  [frequency] is counted on a column of dtype [object], so its
    sum and the number of customers are Python integers, and their
    quotient raises [ZeroDivisionError] when no customer is left. *)
Definition run_cell_22 (df : frame_21) : outcome frame_22 :=
  if (nunique Z.eq_dec (map (fun r => cCustomerID (fst r)) df) =? 0)%Z
  then Raised "ZeroDivisionError"
  else Completed (cell_22 df).

(** Cells 21 to 25. *)
Definition MetricEngine (df : list (crow Q)) : outcome (list orow) :=
  and_then (run_cell_22 (cell_21 df))
           (fun df22 => Completed (cell_25 (cell_24 (cell_23 df22)))).

(** Cells 6 to 10: the frame after capping and country folding. *)
Definition folded (df : list raw_row) : list row :=
  let df8 := cell_8 (dropna df) in
  cell_10 (cell_9 df8) df8.

(** Cells 6 to 14: the frame that reaches [groupby], when cell 12 does not
    raise. *)
Definition prepared (df : list raw_row) : list trow :=
  cell_14 (cell_13 (cell_12 (folded df))).

(** Cells 6 to 20, when cells 12 and 20 do not raise. *)
Definition Aggregator (today : Z) (df : list raw_row) : list (crow Q) :=
  cell_20 (cell_18 today (prepared df)).

(** Cells 6 to 14. *)
Definition run_prepared (df : list raw_row) : outcome (list trow) :=
  and_then (run_cell_12 (Invoice_dtype_object df) (folded df))
           (fun df12 => Completed (cell_14 (cell_13 df12))).

(** Cells 6 to 25. *)
Definition pipeline (today : Z) (df : list raw_row) : outcome (list orow) :=
  and_then (run_prepared df)
           (fun df14 => and_then (run_cell_20 (cell_18 today df14)) MetricEngine).

(** The notebook as it is written, with the date of cell 17. *)
Definition notebook (df : list raw_row) : outcome (list orow) :=
  pipeline today_date df.

(** ** Auxiliary definitions used in the statements *)

(** What the two assignments of [replace_with_thresholds] do to one value. *)
Definition clamp (low up x : Q) : Q :=
  let y := if Qltb x low then low else x in
  if Qltb up y then up else y.

(** [y] is [x] capped to [[low, high]]. *)
Definition capped (low high x y : Q) : Prop :=
  ((x < low)%Q -> y = low) /\
  ((high < x)%Q -> y = high) /\
  ((low <= x)%Q /\ (x <= high)%Q -> y = x).

(** The two assignments of [replace_with_thresholds], for given limits. *)
Definition cap_with (v : variable) (low up : Q) (df : list row) : list row :=
  assign_above v up (assign_below v low df).

(** The rows of the frame whose (Customer ID, Country) is [k]. *)
Definition group_of (df : list trow) (k : key) : list trow :=
  filter (fun r => key_eqb (key_of r) k) df.

Definition invoices (g : list trow) : list invoice :=
  map (fun r => Invoice (txn r)) g.

Definition dates (g : list trow) : list Z :=
  map (fun r => InvoiceDate (txn r)) g.

(** The calendar day of a timestamp. *)
Definition day_of (t : Z) : Z := (t / ns_per_day)%Z.

(** The two population scalars of cells 22 and 24. *)
Definition population_frequency (df : list (crow Q)) : num :=
  fdiv (Some (inject_Z (sumZ (map (@frequency Q) df))))
       (inject_Z (nunique Z.eq_dec (map (@cCustomerID Q) df))).

Definition population_lifespan (df : list (crow Q)) : num :=
  fdiv (Some (sumQ (map (@CustomerLifeSpan Q) df)))
       (inject_Z (nunique Z.eq_dec (map (@cCustomerID Q) df))).

(** ** Sample frames *)

Definition sale (inv : invoice) (quantity : Z) (day : Z) (price : Q)
    (customer : Z) (country : string) : raw_row :=
  {| rInvoice := Some inv; rStockCode := Some "85123A"%string;
     rDescription := Some "LANTERN"%string; rQuantity := Some quantity;
     rInvoiceDate := Some (day * ns_per_day)%Z; rPrice := Some price;
     rCustomerID := Some customer; rCountry := Some country |}.

(** 81 sales of customer 1, one priced at 11 and eighty priced at 1. *)
Definition df_81 : list row :=
  dropna (sale (InvNum 1) 1 15000 (11 # 1) 1 "EIRE"
          :: repeat (sale (InvNum 1) 1 15000 1 1 "EIRE") 80).

(** Three sales priced 1, 2 and 3. *)
Definition df_3 : list row :=
  dropna [sale (InvNum 1) 1 15000 1 1 "EIRE";
          sale (InvNum 2) 1 15000 2 1 "EIRE";
          sale (InvNum 3) 1 15000 3 1 "EIRE"].

(** 1000 sales in "Malta": one cancellation and 999 ordinary sales. *)
Definition df_1000 : list raw_row :=
  sale (InvStr "C536379") 1 15000 1 1 "Malta"
  :: repeat (sale (InvNum 536365) 1 15000 1 1 "Malta") 999.


(** Two negative adjustments of customer 12346, a week apart, entered
    under ordinary invoice numbers, and a cancellation of another
    customer. *)
Definition df_returns : list raw_row :=
  [sale (InvNum 541431) (-1) 15298 (10 # 1) 12346 "United Kingdom";
   sale (InvNum 541433) (-2) 15305 (20 # 1) 12346 "United Kingdom";
   sale (InvStr "C536379") (-1) 15300 (275 # 10) 14527 "United Kingdom"].

(** Customer 100: three invoices over 14 days, the last one 7 days before
    [today_date], with line totals 100, 100 and 100, and a cancellation. *)
Definition df_scenario : list raw_row :=
  [sale (InvNum 536365) 10 15298 (10 # 1) 100 "United Kingdom";
   sale (InvNum 536366) 5 15305 (20 # 1) 100 "United Kingdom";
   sale (InvNum 536367) 4 15312 (25 # 1) 100 "United Kingdom";
   sale (InvStr "C536379") (-4) 15313 (25 # 1) 100 "United Kingdom"].

(** ** Country folding in one pass *)

(** The label of a row when the countries counted fewer than 1000 times in
    [col] are folded. *)
Definition relabel (col : list string) (r : row) : row :=
  if (count (Country r) col <? 1000)%Z then set_Country "others" r else r.

(** The cleaned transaction set of the specification: the rows left by the
    null filter, capping, the cancellation filter and the price filter,
    with their original country labels. *)
Definition cleaned_set (df : list raw_row) : list row :=
  cell_13 (cell_12 (cell_8 (dropna df))).

(** Folding with the occurrences counted across the cleaned set. *)
Definition folded_on_cleaned_counts (df : list raw_row) : list row :=
  map (relabel (map Country (cleaned_set df))) (cleaned_set df).

(** ** Cells that only display: 5, 11, 15 and 16 *)

(** [x.isna()] on one cell. *)
Definition isna {A : Type} (x : option A) : bool :=
  match x with
  | None => true
  | Some _ => false
  end.

(** The number of rows whose cell in the given column is missing. *)
Definition na_count (col : raw_row -> bool) (df : list raw_row) : Z :=
  Z.of_nat (List.length (filter col df)).

(** Cell 5: [df_copy.isna().sum()], one count per column. *)
Definition cell_5 (df : list raw_row) : list (string * Z) :=
  [("Invoice"%string, na_count (fun r => isna (rInvoice r)) df);
   ("StockCode"%string, na_count (fun r => isna (rStockCode r)) df);
   ("Description"%string, na_count (fun r => isna (rDescription r)) df);
   ("Quantity"%string, na_count (fun r => isna (rQuantity r)) df);
   ("InvoiceDate"%string, na_count (fun r => isna (rInvoiceDate r)) df);
   ("Price"%string, na_count (fun r => isna (rPrice r)) df);
   ("Customer ID"%string, na_count (fun r => isna (rCustomerID r)) df);
   ("Country"%string, na_count (fun r => isna (rCountry r)) df)].

(** Cell 11: [df_copy['Country'].value_counts()]. *)
Definition cell_11 (df : list row) : list (string * Z) :=
  value_counts (map Country df).

(** Cells 15 and 16: [df_copy['InvoiceDate'].max()] and [.min()]. *)
Definition cell_15 (df : list trow) : Z := series_max (dates df).
Definition cell_16 (df : list trow) : Z := series_min (dates df).

(** Two repeat customers with two invoices each, and a cancellation. *)
Definition df_two_customers : list raw_row :=
  [sale (InvNum 536365) 2 15298 (5 # 1) 17850 "United Kingdom";
   sale (InvNum 536370) 3 15305 (10 # 1) 17850 "United Kingdom";
   sale (InvNum 536380) 10 15299 (20 # 1) 12583 "France";
   sale (InvNum 536390) 10 15310 (30 # 1) 12583 "France";
   sale (InvStr "C536379") (-3) 15306 (10 # 1) 17850 "United Kingdom"].

(** The output of cells 6 to 25 on [df_two_customers]. *)
Definition out_two_customers : list orow :=
  Eval vm_compute in metric_columns (Aggregator today_date df_two_customers).

(** A customer frame in which customer 12347 is listed under two
    countries. *)
Definition cf_two_countries : list (crow Q) :=
  [{| cCustomerID := 12347; cCountry := "Norway"; monetary := 600;
      CustomerLifeSpan := 4; recency := 1; frequency := 3 |};
   {| cCustomerID := 12347; cCountry := "others"; monetary := 100;
      CustomerLifeSpan := 2; recency := 3; frequency := 2 |}].

(** * Properties *)

(** ** Insertion sort *)

Section InsertionSortFacts.
Context {A : Type} (leb : A -> A -> bool).

Lemma insert_perm (x : A) (l : list A) :
  Permutation (x :: l) (insert leb x l).
Proof.
  induction l as [|y l IH]; simpl; [reflexivity|].
  destruct (leb x y); [reflexivity|].
  rewrite perm_swap. now apply perm_skip.
Qed.

Lemma isort_perm (l : list A) : Permutation l (isort leb l).
Proof.
  induction l as [|x l IH]; simpl; [constructor|].
  rewrite <- insert_perm. now apply perm_skip.
Qed.

Lemma isort_In (x : A) (l : list A) : In x (isort leb l) <-> In x l.
Proof.
  split; apply Permutation_in;
    [symmetry; apply isort_perm | apply isort_perm].
Qed.

Hypothesis leb_total : forall x y, leb x y = true \/ leb y x = true.
Hypothesis leb_trans :
  forall x y z, leb x y = true -> leb y z = true -> leb x z = true.

Let R (x y : A) : Prop := leb x y = true.

Lemma insert_sorted (x : A) (l : list A) :
  StronglySorted R l -> StronglySorted R (insert leb x l).
Proof.
  induction 1 as [|y l Hl IH Hy]; simpl.
  - repeat constructor.
  - destruct (leb x y) eqn:E.
    + constructor; [now constructor|].
      constructor; [exact E|].
      rewrite Forall_forall in *. intros z Hz.
      apply leb_trans with y; auto. now apply Hy.
    + constructor; [exact IH|].
      rewrite Forall_forall in *. intros z Hz.
      apply (Permutation_in _ (Permutation_sym (insert_perm x l))) in Hz.
      destruct Hz as [<-|Hz]; [|now apply Hy].
      destruct (leb_total x y) as [H|H]; [congruence|exact H].
Qed.

Lemma isort_sorted (l : list A) : StronglySorted R (isort leb l).
Proof.
  induction l as [|x l IH]; simpl; [constructor|].
  now apply insert_sorted.
Qed.
End InsertionSortFacts.

(** ** Comparisons on [Q] *)

Lemma Qltb_lt (a b : Q) : Qltb a b = true <-> (a < b)%Q.
Proof.
  unfold Qltb. rewrite negb_true_iff. split.
  - intros H. apply Qnot_le_lt. intros Hle.
    apply Qle_bool_iff in Hle. congruence.
  - intros H. destruct (Qle_bool b a) eqn:E; [|reflexivity].
    apply Qle_bool_iff in E. lra.
Qed.

Lemma Qltb_ge (a b : Q) : Qltb a b = false <-> (b <= a)%Q.
Proof.
  unfold Qltb. rewrite negb_false_iff. apply Qle_bool_iff.
Qed.

(** Case analysis on every comparison of the goal. *)
Ltac Qltb_cases :=
  repeat match goal with
  | |- context [Qltb ?a ?b] =>
      let E := fresh "E" in
      destruct (Qltb a b) eqn:E; [apply Qltb_lt in E | apply Qltb_ge in E]
  | _ : context [Qltb ?a ?b] |- _ =>
      let E := fresh "E" in
      destruct (Qltb a b) eqn:E; [apply Qltb_lt in E | apply Qltb_ge in E]
  end.


Lemma isort_Qle_sorted (l : list Q) : StronglySorted Qle (isort Qle_bool l).
Proof.
  assert (H : StronglySorted (fun x y => Qle_bool x y = true) (isort Qle_bool l)).
  { apply isort_sorted.
    - intros x y. rewrite !Qle_bool_iff. lra.
    - intros x y z. rewrite !Qle_bool_iff. lra. }
  induction H as [|x s Hs IH Hx]; constructor; [exact IH|].
  eapply Forall_impl; [|exact Hx].
  intros y. apply Qle_bool_iff.
Qed.

Lemma sorted_nth_le (s : list Q) (d : Q) :
  StronglySorted Qle s ->
  forall i j, (i <= j < List.length s)%nat -> (nth i s d <= nth j s d)%Q.
Proof.
  induction 1 as [|x s Hs IH Hx]; simpl; intros i j Hij; [lia|].
  destruct i as [|i], j as [|j]; try lia.
  - lra.
  - rewrite Forall_forall in Hx. apply Hx, nth_In. lia.
  - apply IH. lia.
Qed.

(** ** Quantiles are monotone in the level *)

Lemma interpolate_mono (s : list Q) (d q1 q2 : Q) :
  StronglySorted Qle s -> s <> [] ->
  (0 <= q1)%Q -> (q1 <= q2)%Q -> (q2 <= 1)%Q ->
  (interpolate s d q1 <= interpolate s d q2)%Q.
Proof.
  intros Hs Hne H0 H12 H1. unfold interpolate.
  set (n := List.length s).
  assert (Hn : (1 <= n)%nat).
  { subst n. destruct s; [congruence | simpl; lia]. }
  set (N := inject_Z (Z.of_nat (n - 1))).
  assert (HN : (0 <= N)%Q).
  { subst N. change 0%Q with (inject_Z 0). rewrite <- Zle_Qle. lia. }
  set (h1 := (N * q1)%Q). set (h2 := (N * q2)%Q).
  assert (Hh0 : (0 <= h1)%Q) by (subst h1; nra).
  assert (Hh12 : (h1 <= h2)%Q) by (subst h1 h2; nra).
  assert (HhN : (h2 <= N)%Q) by (subst h2; nra).
  pose proof (Qfloor_resp_le _ _ Hh0) as F0.
  change (Qfloor 0) with 0%Z in F0.
  pose proof (Qfloor_resp_le _ _ Hh12) as F12.
  pose proof (Qfloor_resp_le _ _ HhN) as FN.
  unfold N in FN. rewrite Qfloor_Z in FN.
  pose proof (Qfloor_le h1) as L1. pose proof (Qfloor_le h2) as L2.
  pose proof (Qlt_floor h1) as U1. pose proof (Qlt_floor h2) as U2.
  rewrite inject_Z_plus in U1, U2.
  change (inject_Z 1) with 1%Q in U1, U2.
  set (f1 := Qfloor h1) in *. set (f2 := Qfloor h2) in *.
  assert (Hlo1 : (Z.to_nat f1 <= Nat.min (Z.to_nat f1 + 1) (n - 1) < n)%nat) by lia.
  assert (Hlo2 : (Z.to_nat f2 <= Nat.min (Z.to_nat f2 + 1) (n - 1) < n)%nat) by lia.
  pose proof (sorted_nth_le d Hs Hlo1) as Hab1.
  pose proof (sorted_nth_le d Hs Hlo2) as Hab2.
  destruct (Z.eq_dec f1 f2) as [E|NE].
  - rewrite <- E in *. nra.
  - assert (Hmid : (Nat.min (Z.to_nat f1 + 1) (n - 1) <= Z.to_nat f2 < n)%nat) by lia.
    pose proof (sorted_nth_le d Hs Hmid) as Hba.
    nra.
Qed.

Lemma quantile_mono (col : list Q) (q1 q2 x1 x2 : Q) :
  (0 <= q1)%Q -> (q1 <= q2)%Q -> (q2 <= 1)%Q ->
  quantile col q1 = Some x1 -> quantile col q2 = Some x2 -> (x1 <= x2)%Q.
Proof.
  unfold quantile. intros H0 H12 H1.
  pose proof (isort_Qle_sorted col) as Hs.
  destruct (isort Qle_bool col) as [|x0 rest]; [discriminate|].
  intros [= <-] [= <-].
  apply interpolate_mono; auto. discriminate.
Qed.

Lemma outlier_thresholds_ordered (df : list row) (v : variable) (low up : Q) :
  outlier_thresholds df v = Some (low, up) -> (low <= up)%Q.
Proof.
  unfold outlier_thresholds.
  destruct (quantile (column v df) (1 # 100)) as [x1|] eqn:E1; [|discriminate].
  destruct (quantile (column v df) (99 # 100)) as [x3|] eqn:E3; [|discriminate].
  intros [= <- <-].
  assert (x1 <= x3)%Q by (eapply quantile_mono; [| | |exact E1|exact E3]; lra).
  lra.
Qed.

(** ** Capping *)

Lemma get_set_same (v : variable) (x : Q) (r : row) : get v (set v x r) = x.
Proof. now destruct v. Qed.

Lemma get_set_other (v v' : variable) (x : Q) (r : row) :
  v <> v' -> get v' (set v x r) = get v' r.
Proof. destruct v, v'; simpl; congruence. Qed.

Lemma assign_below_column (v : variable) (limit : Q) (df : list row) :
  column v (assign_below v limit df)
  = map (fun x => if Qltb x limit then limit else x) (column v df).
Proof.
  unfold column, assign_below. rewrite !map_map.
  apply map_ext. intros r.
  destruct (Qltb (get v r) limit); [apply get_set_same | reflexivity].
Qed.

Lemma assign_above_column (v : variable) (limit : Q) (df : list row) :
  column v (assign_above v limit df)
  = map (fun x => if Qltb limit x then limit else x) (column v df).
Proof.
  unfold column, assign_above. rewrite !map_map.
  apply map_ext. intros r.
  destruct (Qltb limit (get v r)); [apply get_set_same | reflexivity].
Qed.

Lemma replace_with_thresholds_column (df : list row) (v : variable) (low up : Q) :
  outlier_thresholds df v = Some (low, up) ->
  column v (replace_with_thresholds df v) = map (clamp low up) (column v df).
Proof.
  intros E. unfold replace_with_thresholds. rewrite E.
  rewrite assign_above_column, assign_below_column, map_map.
  reflexivity.
Qed.

Lemma replace_with_thresholds_other (df : list row) (v v' : variable) :
  v <> v' -> column v' (replace_with_thresholds df v) = column v' df.
Proof.
  intros Hv. unfold replace_with_thresholds.
  destruct (outlier_thresholds df v) as [[low up]|]; [|reflexivity].
  unfold column, assign_above, assign_below. rewrite !map_map.
  apply map_ext. intros r.
  destruct (Qltb (get v r) low), (Qltb up (get v _));
    rewrite ?get_set_other by exact Hv; reflexivity.
Qed.

Lemma replace_with_thresholds_length (df : list row) (v : variable) :
  List.length (replace_with_thresholds df v) = List.length df.
Proof.
  unfold replace_with_thresholds.
  destruct (outlier_thresholds df v) as [[low up]|]; [|reflexivity].
  unfold assign_above, assign_below. now rewrite !length_map.
Qed.

Lemma outlier_thresholds_column (df df' : list row) (v : variable) :
  column v df = column v df' ->
  outlier_thresholds df v = outlier_thresholds df' v.
Proof. unfold outlier_thresholds. now intros ->. Qed.

Lemma clamp_capped (low up x : Q) : (low <= up)%Q -> capped low up x (clamp low up x).
Proof.
  intros Hle. unfold capped, clamp.
  Qltb_cases; (split; [intros H | split; [intros H | intros [H1 H2]]]);
    try reflexivity; exfalso; lra.
Qed.

Lemma clamp_column_capped (low up : Q) (col : list Q) :
  (low <= up)%Q -> Forall2 (capped low up) col (map (clamp low up) col).
Proof.
  intros Hle. induction col as [|x col IH]; simpl; constructor.
  - now apply clamp_capped.
  - exact IH.
Qed.

(** C5.  For each of the two capped columns, with [q1] and [q3] the 1st and
    99th percentiles of that column of the frame left by [dropna],
    [iqr = q3 - q1], [low = q1 - 1.5 * iqr] and [high = q3 + 1.5 * iqr]:
    cell 8 replaces every value below [low] by [low] and every value above
    [high] by [high], leaves the values in between alone, and keeps the
    number of rows. *)
Theorem capping_clamps_each_column (df : list row) (v : variable) (q1 q3 : Q) :
  quantile (column v df) (1 # 100) = Some q1 ->
  quantile (column v df) (99 # 100) = Some q3 ->
  let iqr := (q3 - q1)%Q in
  let low := (q1 - (3 # 2) * iqr)%Q in
  let high := (q3 + (3 # 2) * iqr)%Q in
  List.length (cell_8 df) = List.length df /\
  Forall2 (capped low high) (column v df) (column v (cell_8 df)).
Proof.
  intros E1 E3 iqr low high.
  assert (Et : outlier_thresholds df v = Some (low, high)).
  { unfold outlier_thresholds. now rewrite E1, E3. }
  pose proof (outlier_thresholds_ordered _ _ Et) as Hle.
  split.
  { unfold cell_8. now rewrite !replace_with_thresholds_length. }
  assert (Ec : column v (cell_8 df) = map (clamp low high) (column v df)).
  { unfold cell_8. destruct v.
    - rewrite replace_with_thresholds_other by discriminate.
      now apply replace_with_thresholds_column.
    - rewrite (replace_with_thresholds_column _ _ (low := low) (up := high)).
      + now rewrite replace_with_thresholds_other by discriminate.
      + rewrite <- Et. apply outlier_thresholds_column.
        now apply replace_with_thresholds_other. }
  rewrite Ec. now apply clamp_column_capped.
Qed.

Lemma capping_clamps_each_column_witness :
  exists low high,
    (low == -2 # 1)%Q /\ (high == 6 # 1)%Q /\
    List.length (cell_8 df_81) = List.length df_81 /\
    Forall2 (capped low high) (column VPrice df_81) (column VPrice (cell_8 df_81)).
Proof.
  edestruct (@capping_clamps_each_column df_81 VPrice) as [Hl Hc];
    [vm_compute; reflexivity | vm_compute; reflexivity |].
  eexists _, _. split; [|split; [|split; [exact Hl | exact Hc]]];
    vm_compute; reflexivity.
Defined.

Lemma cap_with_inside (v : variable) (low up : Q) (df : list row) :
  Forall (fun x => (low <= x)%Q /\ (x <= up)%Q) (column v df) ->
  cap_with v low up df = df.
Proof.
  unfold cap_with, assign_above, assign_below, column.
  induction df as [|r df IH]; simpl; intros H; [reflexivity|].
  inversion H as [|x l [H1 H2] Hl]; subst.
  apply Qltb_ge in H1. rewrite H1. apply Qltb_ge in H2. rewrite H2.
  f_equal. now apply IH.
Qed.

Lemma set_set (v : variable) (x y : Q) (r : row) :
  set v x (set v y r) = set v x r.
Proof. now destruct v. Qed.

Lemma cap_with_idempotent (v : variable) (low up : Q) (df : list row) :
  cap_with v low up (cap_with v low up df) = cap_with v low up df.
Proof.
  unfold cap_with, assign_above, assign_below. rewrite !map_map.
  apply map_ext. intros r.
  Qltb_cases; rewrite ?get_set_same in *; rewrite ?set_set;
    try reflexivity; exfalso; lra.
Qed.

(** C9, as the code has it.  Capping leaves a frame alone when the values
    of the column already lie within the thresholds computed from it, and
    capping the capped frame again with the same thresholds changes
    nothing. *)
Theorem capping_noop_within_thresholds (df : list row) (v : variable) (low up : Q) :
  outlier_thresholds df v = Some (low, up) ->
  (Forall (fun x => (low <= x)%Q /\ (x <= up)%Q) (column v df) ->
   replace_with_thresholds df v = df) /\
  cap_with v low up (replace_with_thresholds df v) = replace_with_thresholds df v.
Proof.
  intros E. unfold replace_with_thresholds. rewrite E.
  split.
  - apply cap_with_inside.
  - apply cap_with_idempotent.
Qed.

Lemma capping_noop_within_thresholds_witness :
  replace_with_thresholds df_3 VPrice = df_3 /\
  exists low up,
    cap_with VPrice low up (replace_with_thresholds df_3 VPrice)
    = replace_with_thresholds df_3 VPrice.
Proof.
  edestruct (@capping_noop_within_thresholds df_3 VPrice) as [Ha Hb].
  - vm_compute. reflexivity.
  - split.
    + apply Ha. repeat constructor; vm_compute; discriminate.
    + eexists _, _. exact Hb.
Defined.

(** C9, as stated, fails: on a column of one 11 and eighty 1, the first
    capping moves 11 to 6 and a second capping, with the thresholds of the
    capped column, moves it on to 7/2. *)
Lemma capping_twice_differs :
  let once := replace_with_thresholds df_81 VPrice in
  let twice := replace_with_thresholds once VPrice in
  (exists x, hd_error (column VPrice once) = Some x /\ (x == 6 # 1)%Q) /\
  (exists y, hd_error (column VPrice twice) = Some y /\ (y == 7 # 2)%Q) /\
  ~ Forall2 Qeq (column VPrice twice) (column VPrice once).
Proof.
  split; [|split].
  - eexists. split; [vm_compute; reflexivity | reflexivity].
  - eexists. split; [vm_compute; reflexivity | reflexivity].
  - intros H. vm_compute in H. inversion H as [|a b la lb Hab Hl]; subst.
    discriminate Hab.
Qed.

(** ** Country folding *)

Lemma lookup_In (d : list (string * Z)) (k : string) (n : Z) :
  NoDup (map fst d) -> In (k, n) d -> lookup k d = Some n.
Proof.
  induction d as [|[k' n'] d IH]; simpl; intros Hnd Hin; [contradiction|].
  inversion Hnd as [|? ? Hk' Hd]; subst.
  destruct Hin as [[= -> ->]|Hin].
  - now rewrite String.eqb_refl.
  - destruct (String.eqb_spec k k') as [->|_]; [|now apply IH].
    exfalso. apply Hk'. apply in_map_iff. now exists (k', n).
Qed.

Lemma unique_In (col : list string) (c : string) : In c (unique col) <-> In c col.
Proof. unfold unique. now rewrite <- in_rev, nodup_In, <- in_rev. Qed.

Lemma unique_NoDup (col : list string) : NoDup (unique col).
Proof. unfold unique. apply NoDup_rev, NoDup_nodup. Qed.

Lemma unique_perm (col : list string) :
  Permutation (nodup string_dec col) (unique col).
Proof.
  apply NoDup_Permutation; [apply NoDup_nodup | apply unique_NoDup |].
  intros c. now rewrite nodup_In, unique_In.
Qed.

Lemma value_counts_keys (col : list string) :
  Permutation (nodup string_dec col) (map fst (value_counts col)).
Proof.
  unfold value_counts.
  eapply Permutation_trans; [|apply Permutation_map, isort_perm].
  rewrite map_map. simpl. rewrite map_id. apply unique_perm.
Qed.

Lemma lookup_value_counts (col : list string) (c : string) :
  In c col -> lookup c (value_counts col) = Some (count c col).
Proof.
  intros Hc. apply lookup_In.
  - eapply Permutation_NoDup; [apply value_counts_keys|].
    apply NoDup_nodup.
  - unfold value_counts. apply isort_In, in_map_iff.
    exists c. split; [reflexivity|]. exact (proj2 (unique_In _ _) Hc).
Qed.

Section Loop.
Variable country : list (string * Z).

(** The test of the loop body on key [i]. *)
Let small (i : string) : bool :=
  match lookup i country with
  | Some n => (n <? 1000)%Z
  | None => false
  end.

Let relabel_keys (keys : list string) (r : row) : row :=
  if existsb (fun i => String.eqb (Country r) i && small i) keys
  then set_Country "others" r else r.

Lemma cell_10_body_map (df : list row) (i : string) :
  cell_10_body country df i
  = map (fun r => if String.eqb (Country r) i && small i
                  then set_Country "others" r else r) df.
Proof.
  unfold cell_10_body, small, replace_Country.
  destruct (lookup i country) as [n|].
  - destruct (n <? 1000)%Z.
    + apply map_ext. intros r. now rewrite andb_true_r.
    + rewrite <- (map_id df) at 1. apply map_ext. intros r.
      now rewrite andb_false_r.
  - rewrite <- (map_id df) at 1. apply map_ext. intros r.
    now rewrite andb_false_r.
Qed.

Lemma loop_relabels (keys : list string) (df : list row) :
  fold_left (cell_10_body country) keys df = map (relabel_keys keys) df.
Proof.
  revert df. induction keys as [|i keys IH]; intros df; simpl.
  - symmetry. apply map_id.
  - rewrite IH, cell_10_body_map, map_map. apply map_ext. intros r.
    unfold relabel_keys. simpl.
    destruct (String.eqb (Country r) i && small i); simpl; [|reflexivity].
    now destruct (existsb _ keys).
Qed.

Lemma relabel_keys_small (keys : list string) (r : row) :
  In (Country r) keys ->
  relabel_keys keys r = if small (Country r) then set_Country "others" r else r.
Proof.
  intros Hin. unfold relabel_keys.
  destruct (small (Country r)) eqn:Es.
  - replace (existsb _ keys) with true; [reflexivity|].
    symmetry. apply existsb_exists. exists (Country r).
    now rewrite String.eqb_refl, Es.
  - replace (existsb _ keys) with false; [reflexivity|].
    symmetry. apply not_true_iff_false. intros H.
    apply existsb_exists in H. destruct H as (i & _ & Hi).
    apply andb_true_iff in Hi. destruct Hi as [Hi1 Hi2].
    apply String.eqb_eq in Hi1. congruence.
Qed.
End Loop.

Lemma cell_10_one_pass (df : list row) :
  cell_10 (cell_9 df) df = map (relabel (map Country df)) df.
Proof.
  unfold cell_10. rewrite loop_relabels.
  apply map_ext_in. intros r Hr.
  assert (Hc : In (Country r) (map Country df)) by now apply in_map.
  rewrite relabel_keys_small.
  - unfold cell_9. rewrite lookup_value_counts by exact Hc. reflexivity.
  - unfold cell_9.
    eapply Permutation_in; [apply value_counts_keys|].
    now apply nodup_In.
Qed.

Lemma relabel_each_row (col : list string) (l : list row) :
  Forall2 (fun old new =>
             ((count (Country old) col < 1000)%Z ->
              new = set_Country "others" old) /\
             ((1000 <= count (Country old) col)%Z -> new = old))
          l (map (relabel col) l).
Proof.
  induction l as [|r l IH]; simpl; constructor; [|exact IH].
  unfold relabel. destruct (Z.ltb_spec (count (Country r) col) 1000);
    split; intros; try reflexivity; lia.
Qed.

(** C4, as the code has it.  The occurrences of each country are counted
    once, on the frame left by the null filter and capping (before the
    cancellation and price filters of cells 12 and 13), and the loop of
    cell 10 relabels exactly the rows whose country was counted strictly
    fewer than 1000 times in that snapshot: a country counted 1000 times
    or more keeps its label. *)
Theorem folding_uses_counts_of_null_filtered_frame (df : list raw_row) :
  let df8 := cell_8 (dropna df) in
  let occurrences := fun r => count (Country r) (map Country df8) in
  folded df = map (relabel (map Country df8)) df8 /\
  Forall2 (fun old new =>
             ((occurrences old < 1000)%Z -> new = set_Country "others" old) /\
             ((1000 <= occurrences old)%Z -> new = old))
          df8 (folded df).
Proof.
  intros df8 occurrences.
  assert (E : folded df = map (relabel (map Country df8)) df8)
    by (unfold folded; apply cell_10_one_pass).
  split; [exact E|]. rewrite E. apply relabel_each_row.
Qed.

(** C4, as stated, fails: "Malta" occurs 999 times in the cleaned set of
    [df_1000], so folding on the counts of the cleaned set relabels all
    its rows, whereas the notebook, which counted the cancelled sale too,
    keeps "Malta" on all 999 rows that reach the aggregation. *)
Lemma folding_counts_cancelled_rows :
  count "Malta" (map Country (cleaned_set df_1000)) = 999%Z /\
  forallb (fun r => String.eqb (Country r) "others")
          (folded_on_cleaned_counts df_1000) = true /\
  List.length (prepared df_1000) = 999%nat /\
  forallb (fun r => String.eqb (Country (txn r)) "Malta")
          (prepared df_1000) = true /\
  map txn (prepared df_1000) <> folded_on_cleaned_counts df_1000.
Proof.
  assert (H1 : forallb (fun r => String.eqb (Country r) "others")
                 (folded_on_cleaned_counts df_1000) = true)
    by (vm_compute; reflexivity).
  assert (H2 : forallb (fun r => String.eqb (Country (txn r)) "Malta")
                 (prepared df_1000) = true)
    by (vm_compute; reflexivity).
  assert (H3 : List.length (prepared df_1000) = 999%nat)
    by (vm_compute; reflexivity).
  split; [vm_compute; reflexivity|].
  split; [exact H1|]. split; [exact H3|]. split; [exact H2|].
  intros E. rewrite <- E in H1.
  destruct (prepared df_1000) as [|r l]; [discriminate H3|].
  simpl in H1, H2.
  apply andb_true_iff in H1. destruct H1 as [H1 _].
  apply andb_true_iff in H2. destruct H2 as [H2 _].
  apply String.eqb_eq in H1, H2. congruence.
Qed.

(** ** Grouping *)

Lemma key_eqb_eq (a b : key) : key_eqb a b = true <-> a = b.
Proof.
  destruct a as [a1 a2], b as [b1 b2]. unfold key_eqb. simpl.
  rewrite andb_true_iff, Z.eqb_eq, String.eqb_eq.
  split; [intros [-> ->]; reflexivity | intros [= -> ->]; auto].
Qed.

Lemma groupby_In (df : list trow) (k : key) (g : list trow) :
  In (k, g) (groupby df) <-> In k (map key_of df) /\ g = group_of df k.
Proof.
  unfold groupby. rewrite in_map_iff. split.
  - intros (k' & [= -> <-] & Hk). split; [|reflexivity].
    apply isort_In in Hk. now apply nodup_In in Hk.
  - intros [Hk ->]. exists k. split; [reflexivity|].
    apply isort_In. now apply nodup_In.
Qed.

Lemma group_of_rows (df : list trow) (k : key) (r : trow) :
  In r (group_of df k) <-> In r df /\ key_of r = k.
Proof.
  unfold group_of. rewrite filter_In. now rewrite key_eqb_eq.
Qed.

Lemma group_of_nonempty (df : list trow) (k : key) :
  In k (map key_of df) -> group_of df k <> [].
Proof.
  intros Hk. apply in_map_iff in Hk. destruct Hk as (r & Hr & Hin).
  assert (In r (group_of df k)) by now apply group_of_rows.
  now destruct (group_of df k).
Qed.

Lemma cell_18_In (today : Z) (df : list trow) (c : crow Z) :
  In c (cell_18 today df) <->
  exists k, In k (map key_of df) /\ c = agg today (k, group_of df k).
Proof.
  unfold cell_18. rewrite in_map_iff. split.
  - intros ([k g] & <- & Hg). apply groupby_In in Hg.
    destruct Hg as [Hk ->]. now exists k.
  - intros (k & Hk & ->). exists (k, group_of df k).
    split; [reflexivity|]. now apply groupby_In.
Qed.

Lemma cell_20_In (df : list (crow Z)) (c : crow Q) :
  In c (cell_20 df) <->
  exists a, In a df /\ (1 < frequency a)%Z /\ c = weeks a.
Proof.
  unfold cell_20. rewrite in_map_iff. split.
  - intros (a & <- & Ha). apply filter_In in Ha. destruct Ha as [Ha Hf].
    apply Z.ltb_lt in Hf. now exists a.
  - intros (a & Ha & Hf & ->). exists a. split; [reflexivity|].
    apply filter_In. split; [exact Ha|]. now apply Z.ltb_lt.
Qed.

(** ** Earliest and latest invoice of a group *)

Lemma fold_max_spec (l : list Z) (x : Z) :
  In (fold_left Z.max l x) (x :: l) /\
  forall y, In y (x :: l) -> (y <= fold_left Z.max l x)%Z.
Proof.
  revert x. induction l as [|a l IH]; intros x; simpl.
  - split; [now left|]. intros y [<-|[]]. lia.
  - destruct (IH (Z.max x a)) as [Hin Hle]. split.
    + destruct Hin as [Hin|Hin]; [|now right; right].
      rewrite <- Hin. destruct (Z.max_spec x a) as [[_ ->]|[_ ->]]; auto.
    + intros y Hy.
      assert (Z.max x a <= fold_left Z.max l (Z.max x a))%Z
        by (apply Hle; now left).
      destruct Hy as [<-|[<-|Hy]]; [lia | lia | apply Hle; now right].
Qed.

Lemma fold_min_spec (l : list Z) (x : Z) :
  In (fold_left Z.min l x) (x :: l) /\
  forall y, In y (x :: l) -> (fold_left Z.min l x <= y)%Z.
Proof.
  revert x. induction l as [|a l IH]; intros x; simpl.
  - split; [now left|]. intros y [<-|[]]. lia.
  - destruct (IH (Z.min x a)) as [Hin Hle]. split.
    + destruct Hin as [Hin|Hin]; [|now right; right].
      rewrite <- Hin. destruct (Z.min_spec x a) as [[_ ->]|[_ ->]]; auto.
    + intros y Hy.
      assert (fold_left Z.min l (Z.min x a) <= Z.min x a)%Z
        by (apply Hle; now left).
      destruct Hy as [<-|[<-|Hy]]; [lia | lia | apply Hle; now right].
Qed.

Lemma series_max_spec (l : list Z) :
  l <> [] -> In (series_max l) l /\ forall y, In y l -> (y <= series_max l)%Z.
Proof. destruct l as [|x l]; [congruence|]. intros _. apply fold_max_spec. Qed.

Lemma series_min_spec (l : list Z) :
  l <> [] -> In (series_min l) l /\ forall y, In y l -> (series_min l <= y)%Z.
Proof. destruct l as [|x l]; [congruence|]. intros _. apply fold_min_spec. Qed.

Lemma single_day_span (l : list Z) :
  l <> [] ->
  (forall x y, In x l -> In y l -> day_of x = day_of y) ->
  days (series_max l - series_min l) = 0%Z.
Proof.
  intros Hne Hday.
  destruct (series_max_spec Hne) as [Hmax Hub].
  destruct (series_min_spec Hne) as [Hmin Hlb].
  pose proof (Hday _ _ Hmax Hmin) as E.
  pose proof (Hub _ Hmin) as Hle.
  unfold days, day_of in *.
  assert (HD : (0 < ns_per_day)%Z) by reflexivity.
  pose proof (Z.div_mod (series_max l) ns_per_day) as D1.
  pose proof (Z.div_mod (series_min l) ns_per_day) as D2.
  pose proof (Z.mod_pos_bound (series_max l) ns_per_day HD) as B1.
  pose proof (Z.mod_pos_bound (series_min l) ns_per_day HD) as B2.
  apply Z.div_small. rewrite E in D1. lia.
Qed.

(** ** Cancelled invoices *)

Lemma set_Invoice (v : variable) (x : Q) (r : row) : Invoice (set v x r) = Invoice r.
Proof. now destruct v. Qed.

Lemma replace_with_thresholds_Invoice (df : list row) (v : variable) :
  map Invoice (replace_with_thresholds df v) = map Invoice df.
Proof.
  unfold replace_with_thresholds.
  destruct (outlier_thresholds df v) as [[low up]|]; [|reflexivity].
  unfold assign_above, assign_below. rewrite !map_map.
  apply map_ext. intros r.
  destruct (Qltb (get v r) low), (Qltb up (get v _));
    rewrite ?set_Invoice; reflexivity.
Qed.

Lemma folded_Invoice (df : list raw_row) :
  map Invoice (folded df) = map Invoice (dropna df).
Proof.
  unfold folded. rewrite cell_10_one_pass.
  unfold cell_8. rewrite map_map.
  rewrite <- (replace_with_thresholds_Invoice (dropna df) VPrice).
  rewrite <- (replace_with_thresholds_Invoice _ VQuantity).
  apply map_ext. intros r. unfold relabel.
  now destruct (count _ _ <? 1000)%Z.
Qed.

Lemma prepared_not_cancelled (df : list raw_row) (r : trow) :
  In r (prepared df) -> str_contains_C (Invoice (txn r)) = false.
Proof.
  unfold prepared, cell_14, cell_13, cell_12. intros Hr.
  apply in_map_iff in Hr. destruct Hr as (t & <- & Ht). simpl.
  apply filter_In in Ht. destruct Ht as [Ht _].
  apply filter_In in Ht. destruct Ht as [_ Ht].
  now apply negb_true_iff in Ht.
Qed.

(** C8.  No transaction whose invoice contains 'C' reaches the
    aggregation: capping and folding leave the invoice of every row
    alone, the frame that is grouped holds no such row, and every row of
    the customer frame is the aggregate of a group of that frame, none of
    whose rows is a cancellation. *)
Theorem cancelled_invoices_never_aggregated (today : Z) (df : list raw_row) :
  str_contains_C (InvStr "C536379") = true /\
  map Invoice (folded df) = map Invoice (dropna df) /\
  Forall (fun r => str_contains_C (Invoice (txn r)) = false) (prepared df) /\
  Forall (fun c =>
            exists k g,
              c = weeks (agg today (k, g)) /\
              g = group_of (prepared df) k /\
              Forall (fun r => In r (prepared df) /\
                               str_contains_C (Invoice (txn r)) = false) g)
         (Aggregator today df).
Proof.
  split; [reflexivity|]. split; [apply folded_Invoice|]. split.
  - apply Forall_forall. apply prepared_not_cancelled.
  - apply Forall_forall. intros c Hc. unfold Aggregator in Hc.
    apply cell_20_In in Hc. destruct Hc as (a & Ha & _ & ->).
    apply cell_18_In in Ha. destruct Ha as (k & _ & ->).
    exists k, (group_of (prepared df) k).
    split; [reflexivity|]. split; [reflexivity|].
    apply Forall_forall. intros r Hr. apply group_of_rows in Hr.
    destruct Hr as [Hr _]. split; [exact Hr|].
    now apply prepared_not_cancelled with df.
Qed.

(** ** The post-aggregation filter *)

Lemma metric_columns_rows (df : list (crow Q)) :
  metric_columns df
  = map (fun c =>
           let apv := fdiv (Some (monetary c)) (inject_Z (frequency c)) in
           let cv := fmul apv (population_frequency df) in
           (c, apv, population_frequency df, cv, population_lifespan df,
            fmul cv (population_lifespan df))) df.
Proof.
  unfold metric_columns, cell_25, cell_24, cell_23, cell_22, cell_21,
    with_column, population_frequency, population_lifespan.
  rewrite !map_map. reflexivity.
Qed.

(** C3.  Every row of the customer frame has [frequency >= 2]; a
    (Customer ID, Country) group with at most one distinct invoice has no
    row in it; and the population scalars of the metric columns are
    computed on the filtered frame. *)
Theorem one_off_customers_dropped (today : Z) (df : list trow) :
  let kept := cell_20 (cell_18 today df) in
  Forall (fun c => (2 <= frequency c)%Z) kept /\
  (forall k, In k (map key_of df) ->
     (nunique invoice_eq_dec (invoices (group_of df k)) <= 1)%Z ->
     Forall (fun c => (cCustomerID c, cCountry c) <> k) kept) /\
  Forall (fun o =>
            In (customer o) kept /\
            Average_purchase_frequency o = population_frequency kept /\
            Average_customer_lifespan o = population_lifespan kept)
         (metric_columns kept).
Proof.
  intros kept. split; [|split].
  - apply Forall_forall. intros c Hc. apply cell_20_In in Hc.
    destruct Hc as (a & _ & Hf & ->). simpl. lia.
  - intros k Hk Hone. apply Forall_forall. intros c Hc Ek.
    apply cell_20_In in Hc. destruct Hc as (a & Ha & Hf & ->).
    apply cell_18_In in Ha. destruct Ha as (k' & _ & ->).
    simpl in *. rewrite <- surjective_pairing in Ek. subst k'.
    unfold invoices in Hone. lia.
  - rewrite metric_columns_rows. apply Forall_forall. intros o Ho.
    apply in_map_iff in Ho. destruct Ho as (c & <- & Hc).
    now repeat split.
Qed.

(** ** Negative quantities *)

Lemma surviving_rows (df : list raw_row) (r : row) :
  In r (folded df) ->
  str_contains_C (Invoice r) = false ->
  (0 < Price r)%Q ->
  In {| txn := r; TotalPrice := (Price r * Quantity r)%Q |} (prepared df).
Proof.
  intros Hr Hc Hp. unfold prepared, cell_14, cell_13, cell_12.
  apply in_map_iff. exists r. split; [reflexivity|].
  apply filter_In. split; [|now apply Qltb_lt].
  apply filter_In. split; [exact Hr|]. now rewrite Hc.
Qed.

(** ** A frame with a single customer *)




(** * Further properties of the cells *)

(** ** Missing values *)

Lemma na_count_cons (col : raw_row -> bool) (r : raw_row) (df : list raw_row) :
  na_count col (r :: df) = ((if col r then 1 else 0) + na_count col df)%Z.
Proof.
  unfold na_count. cbn [filter]. destruct (col r); cbn [List.length]; lia.
Qed.

Lemma dropna_cons_length (r : raw_row) (df : list raw_row) :
  Z.of_nat (List.length (dropna (r :: df)))
  = ((match complete r with Some _ => 1 | None => 0 end)
     + Z.of_nat (List.length (dropna df)))%Z.
Proof.
  cbn [dropna]. destruct (complete r); cbn [List.length]; lia.
Qed.

Ltac destruct_cells r :=
  destruct (rInvoice r), (rStockCode r), (rDescription r), (rQuantity r),
    (rInvoiceDate r), (rPrice r), (rCustomerID r), (rCountry r).

Lemma dropna_drops_column (col : raw_row -> bool) (df : list raw_row) :
  (forall r, col r = true -> complete r = None) ->
  (Z.of_nat (List.length (dropna df))
   <= Z.of_nat (List.length df) - na_count col df)%Z.
Proof.
  intros Hcol. induction df as [|r df IH].
  - reflexivity.
  - rewrite dropna_cons_length, na_count_cons.
    cbn [List.length]. rewrite Nat2Z.inj_succ.
    destruct (col r) eqn:E.
    + rewrite (Hcol _ E). lia.
    + destruct (complete r); lia.
Qed.

Lemma dropna_drops_at_most (df : list raw_row) :
  (Z.of_nat (List.length df) - sumZ (map snd (cell_5 df))
   <= Z.of_nat (List.length (dropna df)))%Z.
Proof.
  unfold cell_5, sumZ. cbn [map snd fold_left].
  induction df as [|r df IH].
  - reflexivity.
  - rewrite dropna_cons_length, !na_count_cons.
    cbn [List.length]. rewrite Nat2Z.inj_succ.
    unfold complete. destruct_cells r; cbn [isna]; lia.
Qed.

(** X1.  The number of rows that [dropna] removes is at least the number
    of missing cells of any single column reported by [isna().sum()], and
    at most the total of the eight counts; when every count is 0 no row is
    removed. *)
Theorem dropna_rows_bounded_by_isna_sum (df : list raw_row) :
  let kept := Z.of_nat (List.length (dropna df)) in
  let rows := Z.of_nat (List.length df) in
  (forall name n, In (name, n) (cell_5 df) -> (kept <= rows - n)%Z) /\
  (rows - sumZ (map snd (cell_5 df)) <= kept)%Z /\
  (Forall (fun c => snd c = 0%Z) (cell_5 df) -> kept = rows).
Proof.
  intros kept rows.
  assert (H1 : forall name n, In (name, n) (cell_5 df) -> (kept <= rows - n)%Z).
  { intros name n Hin. unfold cell_5 in Hin. cbn [In] in Hin.
    destruct Hin as [E|[E|[E|[E|[E|[E|[E|[E|[]]]]]]]]];
      injection E as _ <-; apply dropna_drops_column;
      intros r; unfold complete; destruct_cells r; cbn [isna];
      try reflexivity; discriminate. }
  pose proof (dropna_drops_at_most df) as H2.
  split; [exact H1|]. split; [exact H2|].
  intros Hz.
  assert (H0 : sumZ (map snd (cell_5 df)) = 0%Z).
  { unfold cell_5 in *. cbn [map snd] in *.
    repeat match goal with
           | H : Forall _ (_ :: _) |- _ => inversion H; clear H; subst
           end.
    cbn [snd] in *. unfold sumZ. cbn [fold_left]. lia. }
  assert (H3 : (kept <= rows - na_count (fun r => isna (rInvoice r)) df)%Z).
  { apply (H1 "Invoice"%string). unfold cell_5. now left. }
  unfold na_count in H3. fold kept rows in H2. lia.
Qed.

(** ** Capping: what it guarantees and what it leaves alone *)

Lemma clamp_within (low up x : Q) :
  (low <= up)%Q -> (low <= clamp low up x)%Q /\ (clamp low up x <= up)%Q.
Proof.
  intros Hle. unfold clamp. Qltb_cases; split; lra.
Qed.

Lemma clamp_monotone (low up x y : Q) :
  (x <= y)%Q -> (clamp low up x <= clamp low up y)%Q.
Proof.
  intros Hxy. unfold clamp. Qltb_cases; lra.
Qed.

(** X2.  After [replace_with_thresholds] every value of the capped column
    lies between the two limits that [outlier_thresholds] returned for the
    column before capping. *)
Theorem capped_column_within_thresholds
    (df : list row) (v : variable) (low up : Q) :
  outlier_thresholds df v = Some (low, up) ->
  Forall (fun x => (low <= x)%Q /\ (x <= up)%Q)
         (column v (replace_with_thresholds df v)).
Proof.
  intros E. rewrite (replace_with_thresholds_column _ _ E).
  pose proof (outlier_thresholds_ordered _ _ E) as Hle.
  apply Forall_forall. intros x Hx. apply in_map_iff in Hx.
  destruct Hx as (y & <- & _). now apply clamp_within.
Qed.

Lemma capped_column_within_thresholds_witness :
  exists low up,
    outlier_thresholds df_81 VPrice = Some (low, up) /\
    Forall (fun x => (low <= x)%Q /\ (x <= up)%Q)
           (column VPrice (replace_with_thresholds df_81 VPrice)).
Proof.
  eexists _, _. split; [vm_compute; reflexivity|].
  apply capped_column_within_thresholds. vm_compute. reflexivity.
Defined.

(** X3.  [replace_with_thresholds] acts on the column value by value
    through one non-decreasing map: capping never reverses the order of two
    values of the column (it can only make them equal). *)
Theorem capping_preserves_order (df : list row) (v : variable) :
  exists f : Q -> Q,
    column v (replace_with_thresholds df v) = map f (column v df) /\
    forall x y, (x <= y)%Q -> (f x <= f y)%Q.
Proof.
  destruct (outlier_thresholds df v) as [[low up]|] eqn:E.
  - exists (clamp low up). split.
    + now apply replace_with_thresholds_column.
    + intros x y. apply clamp_monotone.
  - exists (fun x => x). split.
    + unfold replace_with_thresholds. rewrite E. symmetry. apply map_id.
    + auto.
Qed.

Lemma set_keeps (A : Type) (p : row -> A) (v : variable) (df : list row) :
  (forall v x r, p (set v x r) = p r) ->
  map p (replace_with_thresholds df v) = map p df.
Proof.
  intros Hp. unfold replace_with_thresholds.
  destruct (outlier_thresholds df v) as [[low up]|]; [|reflexivity].
  unfold assign_above, assign_below. rewrite !map_map.
  apply map_ext. intros r.
  destruct (Qltb (get v r) low), (Qltb up (get v _));
    rewrite ?Hp; reflexivity.
Qed.

Lemma relabel_keeps (A : Type) (p : row -> A) (col : list string) (df : list row) :
  (forall c r, p (set_Country c r) = p r) ->
  map p (map (relabel col) df) = map p df.
Proof.
  intros Hp. rewrite map_map. apply map_ext. intros r.
  unfold relabel. destruct (count _ _ <? 1000)%Z; [apply Hp | reflexivity].
Qed.

(** X4.  Cells 8 to 10 keep the number of rows and, row by row, the
    invoice, stock code, description, date and customer; capping leaves the
    country alone and folding leaves price and quantity alone. *)
Theorem capping_and_folding_keep_other_columns (df : list raw_row) :
  List.length (folded df) = List.length (dropna df) /\
  map Invoice (folded df) = map Invoice (dropna df) /\
  map StockCode (folded df) = map StockCode (dropna df) /\
  map Description (folded df) = map Description (dropna df) /\
  map InvoiceDate (folded df) = map InvoiceDate (dropna df) /\
  map CustomerID (folded df) = map CustomerID (dropna df) /\
  map Country (cell_8 (dropna df)) = map Country (dropna df) /\
  map Price (folded df) = map Price (cell_8 (dropna df)) /\
  map Quantity (folded df) = map Quantity (cell_8 (dropna df)).
Proof.
  assert (K : forall (A : Type) (p : row -> A),
             (forall v x r, p (set v x r) = p r) ->
             map p (cell_8 (dropna df)) = map p (dropna df)).
  { intros A p Hp. unfold cell_8. now rewrite !set_keeps. }
  assert (F : forall (A : Type) (p : row -> A),
             (forall c r, p (set_Country c r) = p r) ->
             map p (folded df) = map p (cell_8 (dropna df))).
  { intros A p Hp. unfold folded. rewrite cell_10_one_pass.
    now apply relabel_keeps. }
  assert (S : forall v x r,
             Invoice (set v x r) = Invoice r /\
             StockCode (set v x r) = StockCode r /\
             Description (set v x r) = Description r /\
             InvoiceDate (set v x r) = InvoiceDate r /\
             CustomerID (set v x r) = CustomerID r /\
             Country (set v x r) = Country r)
    by (intros [] x r; repeat split).
  split.
  { rewrite <- (length_map Invoice (folded df)), (F _ Invoice), (K _ Invoice);
      [apply length_map | apply S | reflexivity]. }
  repeat split.
  - rewrite F, K; [reflexivity | apply S | reflexivity].
  - rewrite F, K; [reflexivity | apply S | reflexivity].
  - rewrite F, K; [reflexivity | apply S | reflexivity].
  - rewrite F, K; [reflexivity | apply S | reflexivity].
  - rewrite F, K; [reflexivity | apply S | reflexivity].
  - apply K, S.
  - now apply F.
  - now apply F.
Qed.

(** ** Quantiles *)

Lemma interpolate_between (s : list Q) (d q : Q) :
  StronglySorted Qle s -> s <> [] -> (0 <= q)%Q -> (q <= 1)%Q ->
  exists a b, In a s /\ In b s /\
    (a <= interpolate s d q)%Q /\ (interpolate s d q <= b)%Q.
Proof.
  intros Hs Hne H0 H1. unfold interpolate.
  set (n := List.length s).
  assert (Hn : (1 <= n)%nat).
  { subst n. destruct s; [congruence | simpl; lia]. }
  set (N := inject_Z (Z.of_nat (n - 1))).
  assert (HN : (0 <= N)%Q).
  { subst N. change 0%Q with (inject_Z 0). rewrite <- Zle_Qle. lia. }
  set (h := (N * q)%Q).
  assert (Hh0 : (0 <= h)%Q) by (subst h; nra).
  assert (HhN : (h <= N)%Q) by (subst h; nra).
  pose proof (Qfloor_resp_le _ _ Hh0) as F0.
  change (Qfloor 0) with 0%Z in F0.
  pose proof (Qfloor_resp_le _ _ HhN) as FN.
  unfold N in FN. rewrite Qfloor_Z in FN.
  pose proof (Qfloor_le h) as L. pose proof (Qlt_floor h) as U.
  rewrite inject_Z_plus in U. change (inject_Z 1) with 1%Q in U.
  set (f := Qfloor h) in *.
  assert (Hlo : (Z.to_nat f <= Nat.min (Z.to_nat f + 1) (n - 1) < n)%nat) by lia.
  pose proof (sorted_nth_le d Hs Hlo) as Hab.
  exists (nth (Z.to_nat f) s d), (nth (Nat.min (Z.to_nat f + 1) (n - 1)) s d).
  split; [apply nth_In; lia|]. split; [apply nth_In; lia|].
  split; nra.
Qed.

(** X5.  [quantile] is NaN exactly on an empty column; on a non-empty one,
    for a level between 0 and 1, the result lies between two values of the
    column, hence between its minimum and its maximum. *)
Theorem quantile_between_column_values (col : list Q) (q : Q) :
  (0 <= q)%Q -> (q <= 1)%Q ->
  (quantile col q = None <-> col = []) /\
  (forall x, quantile col q = Some x ->
     exists a b, In a col /\ In b col /\ (a <= x)%Q /\ (x <= b)%Q).
Proof.
  intros H0 H1. unfold quantile.
  pose proof (isort_Qle_sorted col) as Hs.
  pose proof (isort_perm Qle_bool col) as Hp.
  destruct (isort Qle_bool col) as [|x0 rest] eqn:E.
  - apply Permutation_sym, Permutation_nil in Hp. subst col.
    split; [tauto | discriminate].
  - split.
    + split; [discriminate|]. intros ->. discriminate E.
    + intros x [= <-].
      destruct (@interpolate_between (x0 :: rest) x0 q Hs) as (a & b & Ha & Hb & Hab);
        [discriminate | exact H0 | exact H1 |].
      exists a, b.
      split; [eapply Permutation_in; [symmetry; exact Hp | exact Ha]|].
      split; [eapply Permutation_in; [symmetry; exact Hp | exact Hb]|].
      exact Hab.
Qed.

Lemma quantile_between_column_values_witness :
  exists x a b,
    quantile [3; 1; 2]%Q (1 # 2) = Some x /\
    In a [3; 1; 2]%Q /\ In b [3; 1; 2]%Q /\ (a <= x)%Q /\ (x <= b)%Q.
Proof.
  destruct (@quantile_between_column_values [3; 1; 2]%Q (1 # 2)) as [_ H];
    [vm_compute; discriminate | vm_compute; discriminate |].
  destruct (H _ eq_refl) as (a & b & Hab).
  eexists _, a, b. split; [reflexivity | exact Hab].
Defined.

(** ** Sums *)

Lemma fold_left_Zadd (l : list Z) (a : Z) :
  fold_left Z.add l a = (a + fold_left Z.add l 0)%Z.
Proof.
  revert a. induction l as [|x l IH]; intros a; simpl; [lia|].
  rewrite (IH (a + x)%Z), (IH x). lia.
Qed.

Lemma sumZ_cons (x : Z) (l : list Z) : sumZ (x :: l) = (x + sumZ l)%Z.
Proof. unfold sumZ. simpl. apply fold_left_Zadd. Qed.

Lemma sumZ_perm (l l' : list Z) : Permutation l l' -> sumZ l = sumZ l'.
Proof.
  induction 1; rewrite ?sumZ_cons; lia.
Qed.

(** The number of occurrences of the elements of [l] counted key by key,
    on distinct keys that cover [l], is the length of [l]. *)
Lemma count_by_keys (keys col : list string) :
  NoDup keys -> incl col keys ->
  sumZ (map (fun k => count k col) keys) = Z.of_nat (List.length col).
Proof.
  intros Hnd. induction col as [|x col IH]; intros Hincl.
  - unfold count. simpl. clear. induction keys as [|k keys IH]; [reflexivity|].
    simpl map. rewrite sumZ_cons, IH. reflexivity.
  - assert (Hx : In x keys) by (apply Hincl; now left).
    assert (Hc : incl col keys) by (intros y Hy; apply Hincl; now right).
    specialize (IH Hc). cbn [List.length]. rewrite Nat2Z.inj_succ, <- IH.
    clear IH Hincl Hc. revert Hx.
    induction Hnd as [|k keys Hk Hnd IHk]; intros Hx; [contradiction|].
    simpl map. rewrite !sumZ_cons. unfold count at 1 3. simpl count_occ.
    destruct (string_dec x k) as [->|Hne].
    + assert (E : map (fun k0 => count k0 (k :: col)) keys
                  = map (fun k0 => count k0 col) keys).
      { apply map_ext_in. intros k0 Hk0. unfold count. simpl.
        destruct (string_dec k k0) as [->|_]; [contradiction | reflexivity]. }
      rewrite E. lia.
    + destruct Hx as [->|Hx]; [congruence|].
      specialize (IHk Hx). lia.
Qed.

(** ** The dictionary of cell 9 *)

Lemma value_counts_In (col : list string) (c : string) (n : Z) :
  In (c, n) (value_counts col) <-> In c col /\ n = count c col.
Proof.
  unfold value_counts. rewrite isort_In, in_map_iff. split.
  - intros (c' & [= -> <-] & Hc).
    split; [exact (proj1 (unique_In _ _) Hc) | reflexivity].
  - intros [Hc ->]. exists c.
    split; [reflexivity | exact (proj2 (unique_In _ _) Hc)].
Qed.

Lemma lookup_Some_In (d : list (string * Z)) (k : string) (n : Z) :
  lookup k d = Some n -> In (k, n) d.
Proof.
  induction d as [|[k' n'] d IH]; simpl; [discriminate|].
  destruct (String.eqb_spec k k') as [->|_].
  - intros [= ->]. now left.
  - intros H. right. now apply IH.
Qed.

(** X6.  The dictionary built by cell 9 has one key per distinct country
    of the column; looking a country up gives its number of occurrences,
    which is at least 1, and a country that does not occur has no entry;
    the counts add up to the number of rows. *)
Theorem country_counts_dictionary (col : list string) :
  NoDup (map fst (value_counts col)) /\
  (forall c n, lookup c (value_counts col) = Some n <->
               In c col /\ n = count c col) /\
  (forall c n, lookup c (value_counts col) = Some n -> (1 <= n)%Z) /\
  (forall c, lookup c (value_counts col) = None <-> ~ In c col) /\
  sumZ (map snd (value_counts col)) = Z.of_nat (List.length col).
Proof.
  assert (Hnd : NoDup (map fst (value_counts col))).
  { eapply Permutation_NoDup; [apply value_counts_keys | apply NoDup_nodup]. }
  assert (Hiff : forall c n, lookup c (value_counts col) = Some n <->
                             In c col /\ n = count c col).
  { intros c n. split.
    - intros H. now apply value_counts_In, lookup_Some_In.
    - intros [Hc ->]. now apply lookup_value_counts. }
  split; [exact Hnd|]. split; [exact Hiff|]. split; [|split].
  - intros c n H. apply Hiff in H. destruct H as [Hc ->].
    unfold count. apply (count_occ_In string_dec) in Hc. lia.
  - intros c. split.
    + intros HN Hc. rewrite (lookup_value_counts _ _ Hc) in HN. discriminate.
    + intros Hc. destruct (lookup c (value_counts col)) as [n|] eqn:E;
        [|reflexivity].
      apply Hiff in E. tauto.
  - unfold value_counts.
    rewrite <- (sumZ_perm (Permutation_map snd (isort_perm _ _))).
    rewrite map_map. simpl.
    rewrite count_by_keys.
    + reflexivity.
    + apply unique_NoDup.
    + intros x Hx. exact (proj2 (unique_In _ _) Hx).
Qed.

(** ** The frame after folding *)

Lemma count_map_fixed (g : string -> string) (c : string) (col : list string) :
  g c = c -> (count c col <= count c (map g col))%Z.
Proof.
  intros Hg. unfold count. induction col as [|x col IH]; simpl; [lia|].
  destruct (string_dec x c) as [->|Hne].
  - rewrite Hg. destruct (string_dec c c); [lia | congruence].
  - destruct (string_dec (g x) c); lia.
Qed.

Lemma Country_relabel (col : list string) (r : row) :
  Country (relabel col r)
  = if (count (Country r) col <? 1000)%Z then "others"%string else Country r.
Proof. unfold relabel. now destruct (count _ _ <? 1000)%Z. Qed.

Lemma relabelled_labels_frequent (l : list row) (r : row) :
  let f := map (relabel (map Country l)) l in
  In r f ->
  Country r = "others"%string \/ (1000 <= count (Country r) (map Country f))%Z.
Proof.
  intros f Hr. subst f. apply in_map_iff in Hr. destruct Hr as (r0 & <- & Hr0).
  rewrite Country_relabel.
  destruct (Z.ltb_spec (count (Country r0) (map Country l)) 1000) as [Hlt|Hge];
    [now left | right].
  set (g := fun c => if (count c (map Country l) <? 1000)%Z
                     then "others"%string else c).
  assert (E : map Country (map (relabel (map Country l)) l)
              = map g (map Country l)).
  { rewrite !map_map. apply map_ext. intros a. apply Country_relabel. }
  rewrite E. etransitivity; [exact Hge|]. apply count_map_fixed.
  unfold g.
  destruct (Z.ltb_spec (count (Country r0) (map Country l)) 1000);
    [lia | reflexivity].
Qed.

(** X7.  In the table that cell 11 displays, every country other than
    "others" is counted at least 1000 times. *)
Theorem folded_countries_are_frequent (df : list raw_row) (c : string) (n : Z) :
  In (c, n) (cell_11 (folded df)) -> c <> "others"%string -> (1000 <= n)%Z.
Proof.
  unfold cell_11. intros Hin Hc. apply value_counts_In in Hin.
  destruct Hin as [Hin ->]. apply in_map_iff in Hin.
  destruct Hin as (r & <- & Hr).
  unfold folded in *. rewrite cell_10_one_pass in *.
  destruct (relabelled_labels_frequent _ _ Hr) as [E|H]; [congruence | exact H].
Qed.

Lemma folded_countries_are_frequent_witness :
  In ("Malta"%string, 1000%Z) (cell_11 (folded df_1000)) /\ (1000 <= 1000)%Z.
Proof.
  assert (H : In ("Malta"%string, 1000%Z) (cell_11 (folded df_1000)))
    by (vm_compute; left; reflexivity).
  split; [exact H|].
  apply (@folded_countries_are_frequent df_1000 "Malta"%string 1000%Z H).
  discriminate.
Defined.

Lemma set_Country_same (r : row) : set_Country (Country r) r = r.
Proof. now destruct r. Qed.

(** X8.  Folding is idempotent: running cells 9 and 10 again on the frame
    they produced, with the counts taken anew, changes nothing. *)
Theorem folding_twice_is_folding_once (df : list raw_row) :
  cell_10 (cell_9 (folded df)) (folded df) = folded df.
Proof.
  rewrite cell_10_one_pass.
  rewrite <- (map_id (folded df)) at 3.
  apply map_ext_in. intros r Hr.
  unfold folded in Hr. rewrite cell_10_one_pass in Hr.
  apply relabelled_labels_frequent in Hr.
  unfold folded. rewrite cell_10_one_pass.
  unfold relabel at 1.
  destruct Hr as [E|H].
  - destruct (_ <? 1000)%Z; [|reflexivity].
    rewrite <- E. apply set_Country_same.
  - destruct (Z.ltb_spec (count (Country r)
       (map Country (map (relabel (map Country (cell_8 (dropna df))))
                         (cell_8 (dropna df))))) 1000); [lia | reflexivity].
Qed.

(** ** Cancellation marks *)

(** X9.  An invoice is taken for a cancellation exactly when it is a text
    in which an upper-case C occurs somewhere, not only in front; an
    invoice stored as a number never is. *)
Theorem cancellation_mark_anywhere (i : invoice) :
  str_contains_C i = true <->
  exists a b, i = InvStr (a ++ String "C" b).
Proof.
  destruct i as [n|s]; simpl.
  - split; [discriminate | intros (a & b & H); discriminate].
  - split.
    + induction s as [|ch s IH]; simpl; [discriminate|].
      destruct (Ascii.eqb_spec ch "C"%char) as [->|Hne]; simpl.
      * intros _. now exists EmptyString, s.
      * intros H. destruct (IH H) as (a & b & [= ->]).
        now exists (String ch a), b.
    + intros (a & b & [= ->]). induction a as [|ch a IH]; simpl.
      * reflexivity.
      * rewrite IH. apply orb_true_r.
Qed.

(** ** The rows that reach the aggregation *)

(** X10.  Every row that reaches [groupby] has a positive price, an invoice
    that is no cancellation and [TotalPrice = Price * Quantity]; so its
    line total is negative exactly when its quantity is, and zero exactly
    when its quantity is. *)
Theorem line_total_has_sign_of_quantity (df : list raw_row) (t : trow) :
  In t (prepared df) ->
  In (txn t) (folded df) /\
  (0 < Price (txn t))%Q /\
  str_contains_C (Invoice (txn t)) = false /\
  TotalPrice t = (Price (txn t) * Quantity (txn t))%Q /\
  ((TotalPrice t < 0)%Q <-> (Quantity (txn t) < 0)%Q) /\
  ((TotalPrice t == 0)%Q <-> (Quantity (txn t) == 0)%Q).
Proof.
  intros Ht. pose proof (prepared_not_cancelled _ _ Ht) as Hc.
  unfold prepared, cell_14, cell_13, cell_12 in Ht.
  apply in_map_iff in Ht. destruct Ht as (r & <- & Hr). simpl in *.
  apply filter_In in Hr. destruct Hr as [Hr Hp].
  apply filter_In in Hr. destruct Hr as [Hr _].
  apply Qltb_lt in Hp.
  split; [exact Hr|]. split; [exact Hp|]. split; [exact Hc|].
  split; [reflexivity|]. split; split; intros H; nra.
Qed.

Lemma line_total_has_sign_of_quantity_witness :
  Forall (fun t => (Quantity (txn t) < 0)%Q) (prepared df_returns).
Proof.
  apply Forall_forall. intros t Ht.
  destruct (@line_total_has_sign_of_quantity df_returns t Ht)
    as (_ & _ & _ & _ & Hs & _).
  apply Hs. vm_compute in Ht.
  destruct Ht as [<-|[<-|[]]]; reflexivity.
Defined.

(** ** Groups *)

Lemma groups_cover (keys : list key) (df : list trow) :
  NoDup keys -> (forall r, In r df -> In (key_of r) keys) ->
  Permutation (List.concat (map (group_of df) keys)) df.
Proof.
  intros Hnd. induction df as [|r df IH]; intros Hk.
  - unfold group_of. simpl. clear. induction keys; simpl; auto.
  - assert (Hr : In (key_of r) keys) by (apply Hk; now left).
    assert (IH' : Permutation (List.concat (map (group_of df) keys)) df)
      by (apply IH; intros r' Hr'; apply Hk; now right).
    clear IH Hk.
    destruct (in_split _ _ Hr) as (k1 & k2 & E). rewrite E in *.
    apply NoDup_remove_2 in Hnd.
    assert (Hother : forall k, In k (k1 ++ k2) ->
                               group_of (r :: df) k = group_of df k).
    { intros k Hin. unfold group_of. simpl.
      destruct (key_eqb (key_of r) k) eqn:Ek; [|reflexivity].
      apply key_eqb_eq in Ek. subst k. contradiction. }
    assert (E1 : map (group_of (r :: df)) k1 = map (group_of df) k1)
      by (apply map_ext_in; intros k Hin; apply Hother, in_or_app; now left).
    assert (E2 : map (group_of (r :: df)) k2 = map (group_of df) k2)
      by (apply map_ext_in; intros k Hin; apply Hother, in_or_app; now right).
    assert (E3 : group_of (r :: df) (key_of r) = r :: group_of df (key_of r)).
    { unfold group_of. simpl.
      replace (key_eqb (key_of r) (key_of r)) with true; [reflexivity|].
      symmetry. now apply key_eqb_eq. }
    rewrite map_app, concat_app, map_cons, concat_cons in IH' |- *.
    rewrite E1, E2, E3. rewrite <- app_comm_cons.
    apply Permutation_sym, Permutation_cons_app, Permutation_sym. exact IH'.
Qed.

Lemma groupby_keys (df : list trow) :
  NoDup (map fst (groupby df)) /\
  forall k, In k (map fst (groupby df)) <-> In k (map key_of df).
Proof.
  unfold groupby. rewrite map_map. simpl. rewrite map_id. split.
  - eapply Permutation_NoDup; [apply isort_perm | apply NoDup_nodup].
  - intros k. rewrite isort_In. apply nodup_In.
Qed.

Lemma groupby_partitions_the_frame_aux (df : list trow) :
  Permutation (List.concat (map snd (groupby df))) df.
Proof.
  destruct (groupby_keys df) as [Hnd Hk].
  assert (E : map snd (groupby df) = map (group_of df) (map fst (groupby df))).
  { unfold groupby. rewrite !map_map. reflexivity. }
  rewrite E. apply groups_cover; [exact Hnd|].
  intros r Hr. apply Hk. now apply in_map.
Qed.

(** X11.  [groupby] partitions the frame: the keys of the groups are
    distinct, no group is empty, the rows of a group are the rows of the
    frame that have its key, in frame order, and the groups put end to end
    are a rearrangement of the frame, so every row is in exactly one
    group. *)
Theorem groupby_partitions_the_frame (df : list trow) :
  NoDup (map fst (groupby df)) /\
  Forall (fun g => snd g <> [] /\
                   snd g = filter (fun r => key_eqb (key_of r) (fst g)) df)
         (groupby df) /\
  Permutation (List.concat (map snd (groupby df))) df.
Proof.
  destruct (groupby_keys df) as [Hnd Hk].
  split; [exact Hnd|]. split.
  - apply Forall_forall. intros [k g] Hg. apply groupby_In in Hg.
    destruct Hg as [Hin ->]. split; [now apply group_of_nonempty | reflexivity].
  - apply groupby_partitions_the_frame_aux.
Qed.

Lemma fold_left_Qplus (l : list Q) (a : Q) :
  (fold_left Qplus l a == a + fold_left Qplus l 0)%Q.
Proof.
  revert a. induction l as [|x l IH]; intros a; simpl; [lra|].
  rewrite (IH (a + x)%Q), (IH (0 + x)%Q). lra.
Qed.

Lemma sumQ_cons (x : Q) (l : list Q) : (sumQ (x :: l) == x + sumQ l)%Q.
Proof. unfold sumQ. simpl. rewrite fold_left_Qplus. lra. Qed.

Lemma sumQ_app (l l' : list Q) : (sumQ (l ++ l') == sumQ l + sumQ l')%Q.
Proof.
  induction l as [|x l IH]; simpl.
  - unfold sumQ at 2. simpl. lra.
  - rewrite !sumQ_cons, IH. lra.
Qed.

Lemma sumQ_perm (l l' : list Q) : Permutation l l' -> (sumQ l == sumQ l')%Q.
Proof.
  induction 1 as [|x l l' _ IH|x y l|l l' l'' _ IH1 _ IH2].
  - reflexivity.
  - rewrite !sumQ_cons, IH. reflexivity.
  - rewrite !sumQ_cons. lra.
  - now rewrite IH1.
Qed.

Lemma sumQ_concat (A : Type) (f : A -> Q) (ls : list (list A)) :
  (sumQ (map (fun g => sumQ (map f g)) ls) == sumQ (map f (List.concat ls)))%Q.
Proof.
  induction ls as [|g ls IH]; simpl; [reflexivity|].
  rewrite sumQ_cons, map_app, sumQ_app, IH. reflexivity.
Qed.

(** X12.  Aggregation conserves revenue: the [monetary] values of the
    customer frame of cell 18 add up to the sum of [TotalPrice] over the
    frame that was grouped. *)
Theorem aggregation_conserves_revenue (today : Z) (df : list trow) :
  (sumQ (map (@monetary Z) (cell_18 today df)) == sumQ (map TotalPrice df))%Q.
Proof.
  unfold cell_18. rewrite map_map. simpl.
  rewrite <- (map_map snd (fun g => sumQ (map TotalPrice g))).
  rewrite sumQ_concat.
  apply sumQ_perm, Permutation_map.
  apply groupby_partitions_the_frame_aux.
Qed.

(** ** Bounds on the aggregates *)

Lemma nodup_length_le (A : Type) (dec : forall a b : A, {a = b} + {a <> b})
    (l : list A) :
  (List.length (nodup dec l) <= List.length l)%nat.
Proof.
  induction l as [|x l IH]; simpl; [lia|].
  destruct (in_dec dec x l); simpl; lia.
Qed.

Lemma nunique_bounds (A : Type) (dec : forall a b : A, {a = b} + {a <> b})
    (l : list A) :
  l <> [] -> (1 <= nunique dec l <= Z.of_nat (List.length l))%Z.
Proof.
  intros Hne. unfold nunique.
  pose proof (nodup_length_le dec l).
  destruct l as [|x l]; [congruence|].
  assert (Hx : In x (nodup dec (x :: l))) by (apply nodup_In; now left).
  destruct (nodup dec (x :: l)); [contradiction | simpl in *; lia].
Qed.

Lemma days_monotone (a b : Z) : (a <= b)%Z -> (days a <= days b)%Z.
Proof. intros H. unfold days. apply Z.div_le_mono; [reflexivity | exact H]. Qed.

Lemma group_dates (df : list trow) (k : key) (t : Z) :
  In t (dates (group_of df k)) -> In t (dates df).
Proof.
  unfold dates. rewrite !in_map_iff. intros (r & <- & Hr).
  apply group_of_rows in Hr. exists r. tauto.
Qed.

(** X13.  For every row left by cell 18: [frequency] is at least 1 and at
    most the number of rows of its group; [CustomerLifeSpan] is not
    negative and not longer than the whole days between the earliest and
    the latest invoice of the frame (cells 16 and 15); [recency] is at
    least the whole days between the latest invoice of the frame and the
    reference date, so it is not negative when that date is not before the
    latest invoice. *)
Theorem aggregates_are_bounded (today : Z) (df : list trow) :
  Forall (fun c =>
            let g := group_of df (cCustomerID c, cCountry c) in
            (1 <= frequency c <= Z.of_nat (List.length g))%Z /\
            (0 <= CustomerLifeSpan c <= days (cell_15 df - cell_16 df))%Z /\
            (days (today - cell_15 df) <= recency c)%Z /\
            ((cell_15 df <= today)%Z -> (0 <= recency c)%Z))
         (cell_18 today df).
Proof.
  apply Forall_forall. intros c Hc. apply cell_18_In in Hc.
  destruct Hc as (k & Hk & ->). simpl. rewrite <- surjective_pairing.
  pose proof (group_of_nonempty _ _ Hk) as Hne.
  assert (Hdf : dates df <> []).
  { intros E. unfold dates in E. apply map_eq_nil in E. subst df. exact Hk. }
  assert (Hg : dates (group_of df k) <> []).
  { unfold dates. destruct (group_of df k); [congruence | discriminate]. }
  fold (dates (group_of df k)). fold (invoices (group_of df k)).
  destruct (series_max_spec Hg) as [Gmax Gub].
  destruct (series_min_spec Hg) as [Gmin Glb].
  destruct (series_max_spec Hdf) as [_ Fub].
  destruct (series_min_spec Hdf) as [_ Flb].
  pose proof (Fub _ (group_dates _ _ _ Gmax)) as H1.
  pose proof (Flb _ (group_dates _ _ _ Gmin)) as H2.
  pose proof (Gub _ Gmin) as H3.
  unfold cell_15, cell_16.
  assert (Hrec : (days (today - series_max (dates df))
                  <= days (today - series_max (dates (group_of df k))))%Z)
    by (apply days_monotone; lia).
  split; [|split; [split|split]].
  - replace (List.length (group_of df k))
      with (List.length (invoices (group_of df k)))
      by (unfold invoices; apply length_map).
    apply nunique_bounds. unfold invoices.
    destruct (group_of df k); [congruence | discriminate].
  - change 0%Z with (days 0). apply days_monotone. lia.
  - apply days_monotone. lia.
  - exact Hrec.
  - intros Ht. etransitivity; [|exact Hrec].
    change 0%Z with (days 0). apply days_monotone. lia.
Qed.

Lemma kept_keys_incl (T : Type) (keep : crow T -> bool) (df : list (crow T))
    (k : key) :
  In k (map (fun c => (cCustomerID c, cCountry c)) (filter keep df)) ->
  In k (map (fun c => (cCustomerID c, cCountry c)) df).
Proof.
  rewrite !in_map_iff. intros (c & Ek & Hc).
  exists c. split; [exact Ek|]. now apply filter_In in Hc.
Qed.

Lemma kept_keys_distinct (T : Type) (keep : crow T -> bool) (df : list (crow T)) :
  NoDup (map (fun c => (cCustomerID c, cCountry c)) df) ->
  NoDup (map (fun c => (cCustomerID c, cCountry c)) (filter keep df)).
Proof.
  induction df as [|c df IH]; cbn [map filter]; [trivial|].
  intros Hnd. apply NoDup_cons_iff in Hnd. destruct Hnd as [Hc Hdf].
  destruct (keep c); cbn [map]; [|now apply IH].
  apply NoDup_cons; [|now apply IH].
  intros Hin. now apply Hc, kept_keys_incl with keep.
Qed.

(** X14.  The customer frame has at most one row for a (Customer ID,
    Country) pair, and never more rows than the grouped frame has distinct
    pairs. *)
Theorem one_row_per_customer_and_country (today : Z) (df : list trow) :
  let kept := cell_20 (cell_18 today df) in
  NoDup (map (fun c => (cCustomerID c, cCountry c)) kept) /\
  (List.length kept <= List.length (nodup key_eq_dec (map key_of df)))%nat.
Proof.
  intros kept. subst kept. unfold cell_20.
  assert (E : map (fun c : crow Z => (cCustomerID c, cCountry c))
                  (cell_18 today df) = map fst (groupby df)).
  { unfold cell_18. rewrite map_map. apply map_ext. intros [[a b] g].
    reflexivity. }
  split.
  - rewrite map_map. simpl.
    apply kept_keys_distinct.
    rewrite E. apply groupby_keys.
  - rewrite length_map.
    etransitivity; [apply filter_length_le|].
    unfold cell_18, groupby. rewrite !length_map.
    rewrite <- (Permutation_length (isort_perm key_leb _)). lia.
Qed.

(** ** The metric columns on the frame of repeat customers *)

Lemma fdiv_nonzero (a : Q) (b : Z) :
  b <> 0%Z -> fdiv (Some a) (inject_Z b) = Some (a / inject_Z b)%Q.
Proof.
  intros Hb. unfold fdiv.
  destruct (Qeq_bool (inject_Z b) 0) eqn:E; [|reflexivity].
  apply Qeq_bool_iff in E. unfold Qeq in E. simpl in E. lia.
Qed.

Lemma sumZ_at_least (A : Type) (f : A -> Z) (m : Z) (l : list A) :
  Forall (fun x => (m <= f x)%Z) l ->
  (m * Z.of_nat (List.length l) <= sumZ (map f l))%Z.
Proof.
  induction 1 as [|x l Hx Hl IH]; simpl map.
  - unfold sumZ. simpl. lia.
  - rewrite sumZ_cons. cbn [List.length]. lia.
Qed.

Lemma sumQ_nonneg (A : Type) (f : A -> Q) (l : list A) :
  Forall (fun x => (0 <= f x)%Q) l -> (0 <= sumQ (map f l))%Q.
Proof.
  induction 1 as [|x l Hx Hl IH]; simpl map.
  - unfold sumQ. simpl. lra.
  - rewrite sumQ_cons. lra.
Qed.

Lemma aggregates_bounds_aux (today : Z) (df : list trow) :
  Forall (fun c => (0 <= @CustomerLifeSpan Z c)%Z) (cell_18 today df).
Proof.
  apply Forall_forall. intros c Hc. apply cell_18_In in Hc.
  destruct Hc as (k & Hk & ->). simpl.
  pose proof (group_of_nonempty _ _ Hk) as Hne.
  assert (Hg : dates (group_of df k) <> []).
  { unfold dates. destruct (group_of df k); [congruence | discriminate]. }
  fold (dates (group_of df k)).
  destruct (series_max_spec Hg) as [_ Gub].
  destruct (series_min_spec Hg) as [Gmin _].
  pose proof (Gub _ Gmin).
  change 0%Z with (days 0). apply days_monotone. lia.
Qed.

Lemma kept_rows (today : Z) (df : list trow) :
  Forall (fun c => (2 <= @frequency Q c)%Z /\ (0 <= CustomerLifeSpan c)%Q)
         (cell_20 (cell_18 today df)).
Proof.
  apply Forall_forall. intros c Hc. apply cell_20_In in Hc.
  destruct Hc as (a & Ha & Hf & ->). simpl. split; [lia|].
  pose proof (aggregates_bounds_aux today df) as Hb.
  rewrite Forall_forall in Hb. specialize (Hb _ Ha).
  assert (0 <= inject_Z (CustomerLifeSpan a))%Q.
  { change 0%Q with (inject_Z 0). rewrite <- Zle_Qle. exact Hb. }
  apply Qle_shift_div_l; lra.
Qed.

Lemma population_scalars (today : Z) (df : list trow) :
  let kept := cell_20 (cell_18 today df) in
  kept <> [] ->
  exists f l,
    population_frequency kept = Some f /\ (2 <= f)%Q /\
    population_lifespan kept = Some l /\ (0 <= l)%Q.
Proof.
  intros kept Hne.
  pose proof (kept_rows today df) as Hk. fold kept in Hk.
  set (n := nunique Z.eq_dec (map (@cCustomerID Q) kept)).
  assert (Hn : (1 <= n <= Z.of_nat (List.length kept))%Z).
  { subst n. rewrite <- (length_map (@cCustomerID Q) kept).
    apply nunique_bounds. destruct kept; [congruence | discriminate]. }
  assert (HnQ : (0 < inject_Z n)%Q).
  { change 0%Q with (inject_Z 0). rewrite <- Zlt_Qlt. lia. }
  unfold population_frequency, population_lifespan. fold n.
  rewrite !fdiv_nonzero by lia.
  eexists _, _. split; [reflexivity|]. split; [|split; [reflexivity|]].
  - apply Qle_shift_div_l; [exact HnQ|].
    assert (H2 : (2 * Z.of_nat (List.length kept)
                  <= sumZ (map (@frequency Q) kept))%Z).
    { apply sumZ_at_least. eapply Forall_impl; [|exact Hk]. simpl. tauto. }
    change 2%Q with (inject_Z 2). rewrite <- inject_Z_mult, <- Zle_Qle. lia.
  - apply Qle_shift_div_l; [exact HnQ|].
    assert (0 <= sumQ (map (@CustomerLifeSpan Q) kept))%Q.
    { apply sumQ_nonneg. eapply Forall_impl; [|exact Hk]. simpl. tauto. }
    lra.
Qed.

(** X16.  When at least one customer is left, the average purchase
    frequency is at least 2 (every customer left has at least two
    invoices, and a customer listed under several countries is counted
    once in the divisor) and the average customer life span is not
    negative. *)
Theorem population_averages_bounds (today : Z) (df : list trow) :
  let kept := cell_20 (cell_18 today df) in
  kept <> [] ->
  exists f l,
    population_frequency kept = Some f /\ (2 <= f)%Q /\
    population_lifespan kept = Some l /\ (0 <= l)%Q.
Proof. apply population_scalars. Qed.

Lemma population_averages_bounds_witness :
  exists f l,
    population_frequency (Aggregator today_date df_scenario) = Some f /\
    (2 <= f)%Q /\
    population_lifespan (Aggregator today_date df_scenario) = Some l /\
    (0 <= l)%Q.
Proof.
  apply (@population_averages_bounds today_date (prepared df_scenario)).
  vm_compute. discriminate.
Defined.

(** X17.  CLTV ranks the customers as their average purchase value does:
    of two output rows, the one with the smaller average purchase value
    never has the larger CLTV. *)
Theorem cltv_ranks_like_average_purchase_value
    (today : Z) (df : list trow) (o1 o2 : orow) (a1 a2 : Q) :
  In o1 (metric_columns (cell_20 (cell_18 today df))) ->
  In o2 (metric_columns (cell_20 (cell_18 today df))) ->
  Average_Purchase_Value o1 = Some a1 ->
  Average_Purchase_Value o2 = Some a2 ->
  (a1 <= a2)%Q ->
  exists c1 c2, CLTV o1 = Some c1 /\ CLTV o2 = Some c2 /\ (c1 <= c2)%Q.
Proof.
  intros H1 H2 E1 E2 Hle.
  rewrite metric_columns_rows in H1, H2.
  apply in_map_iff in H1, H2.
  destruct H1 as (r1 & <- & Hr1), H2 as (r2 & <- & Hr2).
  destruct (@population_scalars today df) as (f & l & Ef & Hf & El & Hl).
  { intros E. rewrite E in Hr1. contradiction. }
  unfold Average_Purchase_Value, CLTV in *. cbn [fst snd] in *.
  rewrite E1, E2, Ef, El. simpl.
  eexists _, _. split; [reflexivity|]. split; [reflexivity|].
  apply Qmult_le_compat_r; [|exact Hl].
  apply Qmult_le_compat_r; [exact Hle | lra].
Qed.

(** ** Small frames *)






Lemma out_two_customers_eq :
  metric_columns (cell_20 (cell_18 today_date (prepared df_two_customers)))
  = out_two_customers.
Proof. vm_compute. reflexivity. Qed.

Lemma cltv_ranks_like_average_purchase_value_witness :
  exists o1 o2 c1 c2,
    metric_columns (Aggregator today_date df_two_customers) = [o2; o1] /\
    CLTV o1 = Some c1 /\ CLTV o2 = Some c2 /\ (c1 <= c2)%Q.
Proof.
  pose proof out_two_customers_eq as E. unfold out_two_customers in E.
  match type of E with
  | _ = [?x; ?y] => set (o2 := x) in *; set (o1 := y) in *
  end.
  destruct (@cltv_ranks_like_average_purchase_value today_date
              (prepared df_two_customers) o1 o2 (40 # 2) (500 # 2))
    as (c1 & c2 & H1 & H2 & Hc).
  - rewrite E. right. now left.
  - rewrite E. now left.
  - reflexivity.
  - reflexivity.
  - vm_compute. discriminate.
  - exists o1, o2, c1, c2. split; [exact E|]. auto.
Defined.

(** ** The size and the sign of the output *)

Lemma repeat_groups_length (p : list trow -> bool) (ls : list (list trow)) :
  (forall g, In g ls -> p g = true -> (2 <= List.length g)%nat) ->
  (2 * List.length (filter p ls) <= List.length (List.concat ls))%nat.
Proof.
  induction ls as [|g ls IH]; intros H; simpl; [lia|].
  rewrite length_app.
  assert (IH' : (2 * List.length (filter p ls) <= List.length (List.concat ls))%nat)
    by (apply IH; intros g' Hg'; apply H; now right).
  destruct (p g) eqn:E; simpl; [|lia].
  assert (2 <= List.length g)%nat by (apply H; [now left | exact E]).
  lia.
Qed.

Lemma dropna_length_le (df : list raw_row) :
  (List.length (dropna df) <= List.length df)%nat.
Proof.
  induction df as [|r df IH]; simpl; [lia|].
  destruct (complete r); simpl; lia.
Qed.

Lemma kept_rows_length (today : Z) (df : list trow) :
  (2 * List.length (cell_20 (cell_18 today df)) <= List.length df)%nat.
Proof.
  rewrite <- (Permutation_length (groupby_partitions_the_frame_aux df)).
  set (p := fun g : list trow => (1 <? nunique invoice_eq_dec (invoices g))%Z).
  assert (E : List.length (cell_20 (cell_18 today df))
              = List.length (filter p (map snd (groupby df)))).
  { unfold cell_20, cell_18. rewrite length_map.
    generalize (groupby df). intros gs.
    induction gs as [|g gs IH]; simpl; [reflexivity|].
    unfold p at 1. unfold invoices.
    destruct (1 <? nunique _ _)%Z; simpl; now rewrite IH. }
  rewrite E. apply repeat_groups_length.
  intros g Hg Hp. unfold p in Hp. apply Z.ltb_lt in Hp.
  destruct g as [|r g].
  - unfold nunique in Hp. simpl in Hp. lia.
  - assert (Hb : (nunique invoice_eq_dec (invoices (r :: g))
                  <= Z.of_nat (List.length (invoices (r :: g))))%Z)
      by (apply nunique_bounds; discriminate).
    unfold invoices in Hb at 2. rewrite length_map in Hb. lia.
Qed.

(** X20.  The CLTV of an output row has the sign of the customer's
    [monetary]: it is not negative when [monetary] is not, and not positive
    when [monetary] is not; and every CLTV is 0 when the average customer
    life span is 0, that is when each repeat customer bought within a
    single day. *)
Theorem cltv_has_sign_of_monetary (today : Z) (df : list trow) :
  Forall (fun o =>
            exists c l,
              CLTV o = Some c /\ Average_customer_lifespan o = Some l /\
              ((0 <= monetary (customer o))%Q -> (0 <= c)%Q) /\
              ((monetary (customer o) <= 0)%Q -> (c <= 0)%Q) /\
              ((l == 0)%Q -> (c == 0)%Q))
         (metric_columns (cell_20 (cell_18 today df))).
Proof.
  apply Forall_forall. intros o Ho.
  rewrite metric_columns_rows in Ho. apply in_map_iff in Ho.
  destruct Ho as (r & <- & Hr).
  destruct (@population_scalars today df) as (f & l & Ef & Hf & El & Hl).
  { intros E. rewrite E in Hr. contradiction. }
  pose proof (kept_rows today df) as Hk. rewrite Forall_forall in Hk.
  destruct (Hk _ Hr) as [Hfr _].
  unfold CLTV, Average_customer_lifespan, customer. cbn [fst snd].
  rewrite Ef, El, fdiv_nonzero by lia. simpl.
  eexists _, _. split; [reflexivity|]. split; [reflexivity|].
  assert (Hq : (0 < inject_Z (frequency r))%Q).
  { change 0%Q with (inject_Z 0). rewrite <- Zlt_Qlt. lia. }
  assert (Hff : (0 <= f * l)%Q) by nra.
  split; [|split].
  - intros Hm.
    assert (0 <= monetary r / inject_Z (frequency r))%Q
      by (apply Qle_shift_div_l; lra).
    nra.
  - intros Hm.
    assert (monetary r / inject_Z (frequency r) <= 0)%Q
      by (apply Qle_shift_div_r; lra).
    nra.
  - intros ->. ring.
Qed.

(** * The run of the notebook and its exceptions *)

Lemma nunique_spec (A : Type) (dec : forall a b : A, {a = b} + {a <> b})
    (l u : list A) :
  NoDup u -> (forall x, In x u <-> In x l) ->
  nunique dec l = Z.of_nat (List.length u).
Proof.
  intros Hu Hiff. unfold nunique. f_equal.
  apply Nat.le_antisymm; apply NoDup_incl_length;
    try apply NoDup_nodup; try exact Hu;
    intros x Hx.
  - apply Hiff. now apply nodup_In in Hx.
  - apply nodup_In. now apply Hiff.
Qed.

Lemma sumZ_fold_right (l : list Z) : sumZ l = fold_right Z.add 0%Z l.
Proof.
  induction l as [|x l IH]; [reflexivity|].
  rewrite sumZ_cons, IH. reflexivity.
Qed.

Lemma sumQ_fold_right (l : list Q) : (sumQ l == fold_right Qplus 0 l)%Q.
Proof.
  induction l as [|x l IH]; [reflexivity|].
  rewrite sumQ_cons, IH. reflexivity.
Qed.

Lemma cell_18_empty (today : Z) (df : list trow) :
  cell_18 today df = [] <-> df = [].
Proof.
  split.
  - intros E. destruct df as [|r df]; [reflexivity|].
    assert (H : In (agg today (key_of r, group_of (r :: df) (key_of r)))
                   (cell_18 today (r :: df))).
    { apply cell_18_In. exists (key_of r). split; [now left | reflexivity]. }
    rewrite E in H. contradiction.
  - intros ->. reflexivity.
Qed.

Lemma MetricEngine_cases (df : list (crow Q)) :
  MetricEngine df
  = match df with
    | [] => Raised "ZeroDivisionError"
    | _ => Completed (metric_columns df)
    end.
Proof.
  unfold MetricEngine, run_cell_22, cell_21, with_column.
  rewrite map_map. cbn [fst].
  destruct df as [|c df]; [reflexivity|].
  assert (H : (1 <= nunique Z.eq_dec (map (fun x : crow Q => cCustomerID x) (c :: df)))%Z)
    by (apply nunique_bounds; discriminate).
  destruct (Z.eqb_spec (nunique Z.eq_dec (map (fun x : crow Q => cCustomerID x) (c :: df))) 0);
    [lia | reflexivity].
Qed.

Lemma run_prepared_cases (df : list raw_row) :
  run_prepared df
  = if str_accessor_accepts (Invoice_dtype_object df) (folded df)
    then Completed (prepared df) else Raised "AttributeError".
Proof.
  unfold run_prepared, run_cell_12, prepared.
  now destruct (str_accessor_accepts _ _).
Qed.

Lemma pipeline_cases (today : Z) (df : list raw_row) :
  pipeline today df
  = if str_accessor_accepts (Invoice_dtype_object df) (folded df)
    then match prepared df with
         | [] => Raised "TypeError"
         | _ => match Aggregator today df with
                | [] => Raised "ZeroDivisionError"
                | _ => Completed (metric_columns (Aggregator today df))
                end
         end
    else Raised "AttributeError".
Proof.
  unfold pipeline. rewrite run_prepared_cases.
  destruct (str_accessor_accepts _ _); [|reflexivity].
  cbn [and_then]. unfold run_cell_20, Aggregator.
  destruct (prepared df) as [|r p] eqn:Ep; [reflexivity|].
  destruct (cell_18 today (r :: p)) as [|a l] eqn:E18.
  - apply cell_18_empty in E18. discriminate.
  - cbn [and_then]. apply MetricEngine_cases.
Qed.


(** ** An empty population *)



(** ** Negative quantities, to the end of the run *)

(** C10.  The sign of [Quantity] is tested nowhere: when cell 12 does not
    raise, a row left by capping and folding reaches the aggregation as
    soon as its invoice is not a cancellation and its price is positive.
    On [df_returns], two complete rows have a negative quantity, a
    positive price and an invoice that is no cancellation; both reach the
    aggregation with a negative line total, the customer's [monetary] is
    their sum, and the output row has [monetary < 0] and [CLTV < 0]. *)
Theorem negative_quantity_reaches_cltv :
  (forall df df14 r,
      run_prepared df = Completed df14 ->
      In r (folded df) -> str_contains_C (Invoice r) = false ->
      (0 < Price r)%Q ->
      In {| txn := r; TotalPrice := (Price r * Quantity r)%Q |} df14) /\
  (exists r1 r2 i1 i2,
      In r1 df_returns /\ In r2 df_returns /\
      complete r1 <> None /\ complete r2 <> None /\
      rQuantity r1 = Some (-1)%Z /\ rQuantity r2 = Some (-2)%Z /\
      rPrice r1 = Some (10 # 1) /\ rPrice r2 = Some (20 # 1) /\
      rInvoice r1 = Some i1 /\ rInvoice r2 = Some i2 /\
      str_contains_C i1 = false /\ str_contains_C i2 = false /\
      exists t1 t2,
        run_prepared df_returns = Completed [t1; t2] /\
        Invoice (txn t1) = i1 /\ Invoice (txn t2) = i2 /\
        (TotalPrice t1 == -10 # 1)%Q /\ (TotalPrice t2 == -40 # 1)%Q /\
        exists o x,
          notebook df_returns = Completed [o] /\
          (monetary (customer o) == TotalPrice t1 + TotalPrice t2)%Q /\
          (monetary (customer o) < 0)%Q /\
          CLTV o = Some x /\ (x < 0)%Q).
Proof.
  split.
  - intros df df14 r E Hr Hc Hp. rewrite run_prepared_cases in E.
    destruct (str_accessor_accepts _ _); [|discriminate].
    injection E as <-. now apply surviving_rows.
  - unfold df_returns.
    eexists _, _, _, _.
    split; [left; reflexivity|]. split; [right; left; reflexivity|].
    split; [discriminate|]. split; [discriminate|].
    do 8 (split; [reflexivity|]).
    eexists _, _. split; [vm_compute; reflexivity|].
    do 4 (split; [reflexivity|]).
    eexists _, _. split; [vm_compute; reflexivity|].
    split; [reflexivity|]. split; [reflexivity|]. split; reflexivity.
Qed.

(** ** A frame with a single customer, run to the end *)



(** ** The size of the output *)

(** X19.  The output has at most half as many rows as the input: every
    customer row stands for at least two transactions, and no cell adds a
    row. *)
Theorem output_at_most_half_the_input (today : Z) (df : list raw_row) :
  (2 * List.length (Aggregator today df) <= List.length df)%nat /\
  (List.length (prepared df) <= List.length (dropna df))%nat /\
  (List.length (dropna df) <= List.length df)%nat /\
  forall out, pipeline today df = Completed out ->
              (2 * List.length out <= List.length df)%nat.
Proof.
  assert (H1 : (List.length (prepared df) <= List.length (dropna df))%nat).
  { unfold prepared, cell_14, cell_13, cell_12. rewrite length_map.
    etransitivity; [apply filter_length_le|].
    etransitivity; [apply filter_length_le|].
    unfold folded. rewrite cell_10_one_pass, length_map.
    unfold cell_8. now rewrite !replace_with_thresholds_length. }
  pose proof (dropna_length_le df) as H2.
  pose proof (kept_rows_length today (prepared df)) as H3.
  fold (Aggregator today df) in H3.
  split; [lia|]. split; [exact H1|]. split; [exact H2|].
  intros out E. rewrite pipeline_cases in E.
  destruct (str_accessor_accepts _ _); [|discriminate].
  destruct (prepared df); [discriminate|].
  destruct (Aggregator today df) as [|c kept] eqn:EA; [discriminate|].
  injection E as <-. rewrite metric_columns_rows, length_map. lia.
Qed.

Lemma output_at_most_half_the_input_witness :
  exists out, pipeline today_date df_two_customers = Completed out /\
              (2 * List.length out <= List.length df_two_customers)%nat.
Proof.
  assert (E : exists out, pipeline today_date df_two_customers = Completed out)
    by (eexists; vm_compute; reflexivity).
  destruct E as (out & E). exists out. split; [exact E|].
  now apply (@output_at_most_half_the_input today_date df_two_customers).
Defined.

(** ** The metric columns, value by value *)

(** C1.  On a customer frame left by the frequency filter, cells 21 to 25
    keep the rows and give every row five finite values: the average
    purchase value [monetary / frequency] of the row; the average purchase
    frequency, the sum of [frequency] over the rows divided by the number
    of distinct customer ids ([u] is any list of the ids without
    repetition), the same on every row; the customer value, the product of
    the two; the average customer life span, the sum of [CustomerLifeSpan]
    over the rows divided by the same number of distinct customer ids; and
    the CLTV, the product of customer value and average customer life
    span. *)
Theorem metric_columns_formulas
    (df : list (crow Q)) (out : list orow) (u : list Z) :
  MetricEngine df = Completed out ->
  Forall (fun c => (1 < frequency c)%Z) df ->
  NoDup u ->
  (forall id, In id u <-> exists c, In c df /\ cCustomerID c = id) ->
  map customer out = df /\
  Forall (fun o =>
            exists a f v l c : Q,
              Average_Purchase_Value o = Some a /\
              (a == monetary (customer o) / inject_Z (frequency (customer o)))%Q /\
              Average_purchase_frequency o = Some f /\
              (f == inject_Z (fold_right Z.add 0%Z (map (@frequency Q) df))
                    / inject_Z (Z.of_nat (List.length u)))%Q /\
              Customer_Value o = Some v /\ (v == a * f)%Q /\
              Average_customer_lifespan o = Some l /\
              (l == fold_right Qplus 0 (map (@CustomerLifeSpan Q) df)
                    / inject_Z (Z.of_nat (List.length u)))%Q /\
              CLTV o = Some c /\ (c == v * l)%Q)
         out.
Proof.
  intros E Hfreq Hu Hids.
  rewrite MetricEngine_cases in E.
  destruct df as [|c0 df0] eqn:Edf; [discriminate|]. rewrite <- Edf in *.
  injection E as <-.
  assert (Hn : nunique Z.eq_dec (map (@cCustomerID Q) df)
               = Z.of_nat (List.length u)).
  { apply nunique_spec; [exact Hu|]. intros id. rewrite Hids, in_map_iff.
    split; intros (c & H1 & H2); exists c; tauto. }
  assert (Hpos : (1 <= Z.of_nat (List.length u))%Z).
  { rewrite <- Hn. apply nunique_bounds. rewrite Edf. discriminate. }
  rewrite metric_columns_rows. split.
  - rewrite map_map. simpl. apply map_id.
  - apply Forall_forall. intros o Ho.
    apply in_map_iff in Ho. destruct Ho as (c & <- & Hc).
    rewrite Forall_forall in Hfreq. specialize (Hfreq _ Hc).
    unfold population_frequency, population_lifespan.
    rewrite Hn, !fdiv_nonzero by lia.
    unfold customer, Average_Purchase_Value, Average_purchase_frequency,
      Customer_Value, Average_customer_lifespan, CLTV. cbn [fst snd fmul].
    eexists _, _, _, _, _.
    split; [reflexivity|]. split; [reflexivity|].
    split; [reflexivity|]. split; [now rewrite sumZ_fold_right|].
    split; [reflexivity|]. split; [reflexivity|].
    split; [reflexivity|]. split; [now rewrite sumQ_fold_right|].
    split; reflexivity.
Qed.

Lemma metric_columns_formulas_witness :
  exists out,
    MetricEngine cf_two_countries = Completed out /\
    Forall (fun o => exists f l,
              Average_purchase_frequency o = Some f /\ (f == 5)%Q /\
              Average_customer_lifespan o = Some l /\ (l == 6)%Q)
           out.
Proof.
  assert (E : MetricEngine cf_two_countries
              = Completed (metric_columns cf_two_countries))
    by (vm_compute; reflexivity).
  exists (metric_columns cf_two_countries). split; [exact E|].
  destruct (@metric_columns_formulas cf_two_countries _ [12347%Z] E) as [_ H].
  - repeat constructor.
  - repeat constructor. intros [].
  - intros id. split.
    + intros [<-|[]]. eexists. split; [left; reflexivity | reflexivity].
    + intros (c & [<-|[<-|[]]] & <-); now left.
  - eapply Forall_impl; [|exact H].
    intros o (a & f & v & l & c & _ & _ & Ef & Hf & _ & _ & El & Hl & _).
    exists f, l. split; [exact Ef|]. split; [rewrite Hf; reflexivity|].
    split; [exact El|]. rewrite Hl. reflexivity.
Defined.

(** ** The aggregation, value by value *)

Lemma series_max_unique (l : list Z) (m : Z) :
  In m l -> (forall t, In t l -> (t <= m)%Z) -> series_max l = m.
Proof.
  intros Hin Hub.
  assert (Hne : l <> []) by (intros ->; contradiction).
  destruct (series_max_spec Hne) as [Hmax Hle].
  specialize (Hub _ Hmax). specialize (Hle _ Hin). lia.
Qed.

Lemma series_min_unique (l : list Z) (m : Z) :
  In m l -> (forall t, In t l -> (m <= t)%Z) -> series_min l = m.
Proof.
  intros Hin Hlb.
  assert (Hne : l <> []) by (intros ->; contradiction).
  destruct (series_min_spec Hne) as [Hmin Hle].
  specialize (Hlb _ Hmin). specialize (Hle _ Hin). lia.
Qed.

(** C2.  Let [g] be the rows of the grouped frame that have a given
    customer id and country, [u] the distinct invoices of [g], and [first]
    and [last] its earliest and latest invoice date.  When [u] has at
    least two invoices, the customer frame left by cells 18 to 20 has a
    row for that customer and country, with [frequency] the number of
    invoices of [u], [monetary] the sum of the line totals of [g],
    [CustomerLifeSpan] the whole days from [first] to [last] divided by 7
    (0 when less than a day apart) and [recency] the whole days from
    [last] to the reference date divided by 7; when [u] has fewer, the
    frame has no row for them.  Every row of the frame stands for such a
    group. *)
Theorem aggregation_per_customer_and_country
    (today : Z) (df : list trow) (kept : list (crow Q))
    (id : Z) (land : string) (u : list invoice) (first last : Z) :
  let g := filter (fun r => (CustomerID (txn r) =? id)%Z
                            && String.eqb (Country (txn r)) land) df in
  run_cell_20 (cell_18 today df) = Completed kept ->
  g <> [] ->
  NoDup u ->
  (forall i, In i u <-> exists r, In r g /\ Invoice (txn r) = i) ->
  (exists r, In r g /\ InvoiceDate (txn r) = first) ->
  (forall r, In r g -> (first <= InvoiceDate (txn r))%Z) ->
  (exists r, In r g /\ InvoiceDate (txn r) = last) ->
  (forall r, In r g -> (InvoiceDate (txn r) <= last)%Z) ->
  ((2 <= List.length u)%nat ->
   exists c,
     In c kept /\ cCustomerID c = id /\ cCountry c = land /\
     frequency c = Z.of_nat (List.length u) /\
     (monetary c == fold_right Qplus 0 (map TotalPrice g))%Q /\
     (CustomerLifeSpan c == inject_Z ((last - first) / ns_per_day) / 7)%Q /\
     (recency c == inject_Z ((today - last) / ns_per_day) / 7)%Q /\
     ((last - first < ns_per_day)%Z -> (CustomerLifeSpan c == 0)%Q)) /\
  ((List.length u <= 1)%nat ->
   forall c, In c kept -> cCustomerID c = id -> cCountry c <> land) /\
  (forall c, In c kept ->
     exists r, In r df /\ CustomerID (txn r) = cCustomerID c /\
               Country (txn r) = cCountry c).
Proof.
  intros g Hrun Hne Hu Hinv [rf [Hrf Ef]] Hfirst [rl [Hrl El]] Hlast.
  assert (Hg : g = group_of df (id, land)) by reflexivity.
  assert (Hkept : kept = cell_20 (cell_18 today df)).
  { unfold run_cell_20 in Hrun.
    destruct (cell_18 today df); [discriminate | now injection Hrun]. }
  assert (Hk : In (id, land) (map key_of df)).
  { rewrite Hg in Hrf. apply group_of_rows in Hrf. destruct Hrf as [Hin Hkey].
    rewrite <- Hkey. now apply in_map. }
  assert (Hn : nunique invoice_eq_dec (invoices g) = Z.of_nat (List.length u)).
  { apply nunique_spec; [exact Hu|]. intros i. rewrite Hinv.
    unfold invoices. rewrite in_map_iff.
    split; intros (r & H1 & H2); exists r; tauto. }
  assert (Hmax : series_max (dates g) = last).
  { apply series_max_unique.
    - unfold dates. apply in_map_iff. now exists rl.
    - intros t Ht. unfold dates in Ht. apply in_map_iff in Ht.
      destruct Ht as (r & <- & Hr). now apply Hlast. }
  assert (Hmin : series_min (dates g) = first).
  { apply series_min_unique.
    - unfold dates. apply in_map_iff. now exists rf.
    - intros t Ht. unfold dates in Ht. apply in_map_iff in Ht.
      destruct Ht as (r & <- & Hr). now apply Hfirst. }
  assert (Hrow : forall c, In c kept ->
            exists k, In k (map key_of df) /\
                      (1 < nunique invoice_eq_dec (invoices (group_of df k)))%Z /\
                      c = weeks (agg today (k, group_of df k))).
  { intros c Hc. rewrite Hkept in Hc. apply cell_20_In in Hc.
    destruct Hc as (a & Ha & Hf & ->). apply cell_18_In in Ha.
    destruct Ha as (k & Hin & ->). exists k. repeat split; auto. }
  split; [|split].
  - intros H2. exists (weeks (agg today ((id, land), g))).
    split.
    { rewrite Hkept. apply cell_20_In.
      exists (agg today ((id, land), g)). split; [|split; [|reflexivity]].
      - apply cell_18_In. exists (id, land). now rewrite <- Hg.
      - cbn [agg frequency snd]. fold (invoices g). lia. }
    cbn [weeks agg cCustomerID cCountry frequency monetary CustomerLifeSpan
         recency fst snd].
    fold (invoices g). fold (dates g). rewrite Hn, Hmax, Hmin.
    split; [reflexivity|]. split; [reflexivity|]. split; [reflexivity|].
    split; [apply sumQ_fold_right|]. unfold days.
    split; [reflexivity|]. split; [reflexivity|].
    intros Hday.
    assert (Hle : (first <= last)%Z).
    { rewrite <- El. now apply Hfirst. }
    rewrite Z.div_small by lia. reflexivity.
  - intros H1 c Hc Hid Hland.
    destruct (Hrow _ Hc) as (k & _ & Hf & ->).
    cbn [weeks agg cCustomerID cCountry fst snd] in Hid, Hland.
    assert (k = (id, land)) by (destruct k; simpl in *; congruence).
    subst k. rewrite <- Hg in Hf. lia.
  - intros c Hc. destruct (Hrow _ Hc) as (k & Hin & _ & ->).
    apply in_map_iff in Hin. destruct Hin as (r & <- & Hr).
    exists r. split; [exact Hr|]. split; reflexivity.
Qed.

Lemma aggregation_per_customer_and_country_witness :
  exists c,
    In c (Aggregator today_date df_scenario) /\
    cCustomerID c = 100%Z /\ cCountry c = "others"%string /\
    frequency c = 3%Z /\ (monetary c == 300)%Q /\
    (CustomerLifeSpan c == 2)%Q /\ (recency c == 1)%Q.
Proof.
  pose proof (@aggregation_per_customer_and_country today_date
                (prepared df_scenario) (Aggregator today_date df_scenario)
                100%Z "others"%string
                [InvNum 536365; InvNum 536366; InvNum 536367]
                (15298 * ns_per_day)%Z (15312 * ns_per_day)%Z) as H.
  cbv zeta in H.
  match type of H with
  | context [filter ?p ?l] =>
      let v := eval vm_compute in (filter p l) in
      assert (Eg : filter p l = v) by (vm_compute; reflexivity);
      rewrite Eg in H; clear Eg
  end.
  destruct H as [H _].
  - vm_compute. reflexivity.
  - discriminate.
  - repeat constructor; simpl; intuition discriminate.
  - intros i. split.
    + intros [<-|[<-|[<-|[]]]].
      * eexists. split; [left; reflexivity | reflexivity].
      * eexists. split; [right; left; reflexivity | reflexivity].
      * eexists. split; [right; right; left; reflexivity | reflexivity].
    + intros (r & [<-|[<-|[<-|[]]]] & <-); simpl; auto.
  - eexists. split; [left; reflexivity | reflexivity].
  - intros r [<-|[<-|[<-|[]]]]; vm_compute; discriminate.
  - eexists. split; [right; right; left; reflexivity | reflexivity].
  - intros r [<-|[<-|[<-|[]]]]; vm_compute; discriminate.
  - destruct H as (c & Hc & Hid & Hland & Hf & Hm & Hl & Hr & _);
      [simpl; lia|].
    exists c. split; [exact Hc|]. split; [exact Hid|]. split; [exact Hland|].
    split; [exact Hf|]. split; [rewrite Hm; reflexivity|].
    split; [rewrite Hl; reflexivity | rewrite Hr; reflexivity].
Defined.
